(** * mkv-to-mp4-converter: a shallow embedding of [code.py]

    The script probes a Matroska file with ffprobe, builds one ffmpeg
    command line, runs it and turns the [-progress pipe:1] stream into a
    percentage.  This development embeds

    - [build_ffmpeg_cmd] as a pure function on strings,
    - Python's [float] as IEEE binary64 ([spec_float] at precision 53,
      exponent bound 1024), with the conversions [float(str)], [int / int]
      and [int(float)] written out,
    - the two regular expressions of the progress loop as scanners,
    - [remux_with_progress] in a small monad that threads the trace of
      external calls and printed updates and stops at the first exception,
    - the two guards of the [__main__] block on the path the dialog
      returned.

    Strings are [string]s of 8-bit characters, read as the code points
    U+0000..U+00FF. *)

From Stdlib Require Import ZArith List String Ascii Bool Lia.
From Stdlib Require Import Reals Lra.
From Stdlib Require Import SpecFloat.
Import ListNotations.

Local Open Scope string_scope.
Local Open Scope Z_scope.

(** ** Strings *)

Module PyStr.

(** [str.lower] on one code point below 256: the ASCII capitals and the
    Latin-1 capitals U+00C0..U+00DE (U+00D7, the multiplication sign, is
    not a letter) move up by 32. *)
Definition chr_lower (c : ascii) : ascii :=
  let n := N_of_ascii c in
  if ((65 <=? n) && (n <=? 90))%N
     || ((192 <=? n) && (n <=? 222) && negb (n =? 215))%N
  then ascii_of_N (n + 32) else c.

Fixpoint lower (s : string) : string :=
  match s with
  | EmptyString => EmptyString
  | String c r => String (chr_lower c) (lower r)
  end.

(** Case folding restricted to the 26 ASCII letters, and the comparison of
    two strings up to it.  This is the reading of "equal under
    case-insensitive comparison" that the plan properties are stated with. *)
Definition ascii_fold (c : ascii) : ascii :=
  let n := N_of_ascii c in
  if ((65 <=? n) && (n <=? 90))%N then ascii_of_N (n + 32) else c.

Fixpoint caseless_eqb (s t : string) : bool :=
  match s, t with
  | EmptyString, EmptyString => true
  | String a s', String b t' =>
      Ascii.eqb (ascii_fold a) (ascii_fold b) && caseless_eqb s' t'
  | _, _ => false
  end.

(** [s.startswith(p)] and, when it holds, the rest of [s]. *)
Fixpoint strip_prefix (p s : string) : option string :=
  match p, s with
  | EmptyString, _ => Some s
  | String a p', String b s' =>
      if Ascii.eqb a b then strip_prefix p' s' else None
  | String _ _, EmptyString => None
  end.

Fixpoint rev_append (s acc : string) : string :=
  match s with
  | EmptyString => acc
  | String c r => rev_append r (String c acc)
  end.

Definition rev (s : string) : string := rev_append s EmptyString.

End PyStr.

(** ** The plan builder *)

(** [audio_args] and [tag_args] are the two locals of [build_ffmpeg_cmd]. *)
Definition audio_args (acodec : string) : list string :=
  if String.eqb (PyStr.lower acodec) "dts"
  then ["-c:a"; "alac"] else ["-c:a"; "copy"].

Definition tag_args (vcodec : string) : list string :=
  if String.eqb (PyStr.lower vcodec) "hevc"
     || String.eqb (PyStr.lower vcodec) "h265"
  then ["-tag:v"; "hvc1"] else [].

Definition build_ffmpeg_cmd (src dst acodec vcodec : string) : list string :=
  ["ffmpeg"; "-y"; "-i"; src; "-c:v"; "copy"]
    ++ audio_args acodec
    ++ ["-movflags"; "+faststart"]
    ++ tag_args vcodec
    ++ ["-progress"; "pipe:1"; "-nostats"; dst].

(** ** Exceptions *)

(** The exceptions the script can end with.  [sys.exit(n)] raises
    [SystemExit n]; nothing in the script catches anything. *)
Inductive exn : Type :=
| ValueError
| ZeroDivisionError
| OverflowError
| CalledProcessError
| OSError
| SystemExit (code : Z).

(** A computation that either raises or returns. *)
Definition result (A : Type) : Type := (exn + A)%type.

Definition ret {A} (a : A) : result A := inr a.
Definition raise {A} (e : exn) : result A := inl e.
Definition bind {A B} (m : result A) (k : A -> result B) : result B :=
  match m with
  | inl e => inl e
  | inr a => k a
  end.

Declare Scope py_scope.
Delimit Scope py_scope with py.
Notation "x <- m ;; k" := (bind m (fun x => k))
  (at level 61, m at next level, right associativity) : py_scope.

(** ** Python floats *)

Module PyFloat.

Definition prec : Z := 53.
Definition emax : Z := 1024.

Definition float : Type := spec_float.

Definition fmul : float -> float -> float := SFmul prec emax.
Definition fadd : float -> float -> float := SFadd prec emax.
Definition flt : float -> float -> bool := SFltb.
Definition feqb : float -> float -> bool := SFeqb.

Definition is_zero (x : float) : bool :=
  match x with
  | S754_zero _ => true
  | _ => false
  end.

(** The quotient [a / b] of two integers, [0 <= a] and [0 < b], rounded to
    the nearest binary64 value, ties to even; too large a quotient gives
    [S754_infinity]. *)
Definition of_ratio (a b : Z) : float :=
  match a with
  | Z0 => S754_zero false
  | _ =>
      let '(q, e, l) := SFdiv_core_binary prec emax a 0 b 0 in
      binary_round_aux prec emax false q e l
  end.

(** [float(n)] for an [int] constant of the script. *)
Definition of_Z (n : Z) : float :=
  if n <? 0 then SFopp (of_ratio (- n) 1) else of_ratio n 1.

(** [x / y] on floats: a zero divisor of either sign raises. *)
Definition truediv (x y : float) : result float :=
  if is_zero y then raise ZeroDivisionError else ret (SFdiv prec emax x y).

(** [a / b] on two [int]s, [0 <= a] and [0 < b]: the correctly rounded
    quotient, [OverflowError] when it does not fit a float. *)
Definition int_truediv (a b : Z) : result float :=
  match of_ratio a b with
  | S754_infinity _ => raise OverflowError
  | q => ret q
  end.

(** [int(x)]: truncation toward zero; [trunc] is its value where it has
    one. *)
Definition trunc (x : float) : Z :=
  match x with
  | S754_finite s m e =>
      let a := match e with
               | Zneg p => Z.shiftr (Zpos m) (Zpos p)
               | _ => Z.shiftl (Zpos m) e
               end in
      if s then - a else a
  | _ => 0
  end.

Definition to_int (x : float) : result Z :=
  match x with
  | S754_nan => raise ValueError
  | S754_infinity _ => raise OverflowError
  | _ => ret (trunc x)
  end.

(** [min(x, 100)]: the builtin returns its first argument unless the second
    is smaller, so a NaN comes back unchanged.  The [int] 100 it returns
    otherwise is kept as the float 100.0, which prints, truncates and
    compares the same. *)
Definition hundred : float := Eval vm_compute in of_Z 100.

Definition min_100 (x : float) : float :=
  if flt hundred x then hundred else x.

(** *** [float(str)] *)

Definition is_digit (c : ascii) : bool :=
  let n := N_of_ascii c in ((48 <=? n) && (n <=? 57))%N.

Definition digit_val (c : ascii) : Z := Z.of_N (N_of_ascii c) - 48.

(** The characters [float] skips at both ends: after the transformation
    of the non-ASCII spaces U+0085 and U+00A0 into a blank, the C
    [isspace] set. *)
Definition is_float_space (c : ascii) : bool :=
  let n := N_of_ascii c in
  ((9 <=? n) && (n <=? 13) || (n =? 32) || (n =? 133) || (n =? 160))%N.

(** [digit (["_"] digit)*] after its first digit: [acc] is the number read
    so far, [n] the count of digits. *)
Fixpoint digitpart_tail (s : string) (acc n : Z) : Z * Z * string :=
  match s with
  | String c r =>
      if is_digit c then digitpart_tail r (10 * acc + digit_val c) (n + 1)
      else if Ascii.eqb c "_" then
        match r with
        | String d r' =>
            if is_digit d
            then digitpart_tail r' (10 * acc + digit_val d) (n + 1)
            else (acc, n, s)
        | EmptyString => (acc, n, s)
        end
      else (acc, n, s)
  | EmptyString => (acc, n, s)
  end.

Definition digitpart (s : string) (acc n : Z) : option (Z * Z * string) :=
  match s with
  | String c r =>
      if is_digit c
      then Some (digitpart_tail r (10 * acc + digit_val c) (n + 1))
      else None
  | EmptyString => None
  end.

(** [[digitpart] "." digitpart | digitpart ["."]]: the digits as one
    integer, the number of digits after the point, and the rest. *)
Definition parse_number (s : string) : option (Z * Z * string) :=
  match digitpart s 0 0 with
  | Some (n, _, r) =>
      match r with
      | String "."%char r' =>
          match digitpart r' n 0 with
          | Some x => Some x
          | None => Some (n, 0, r')
          end
      | _ => Some (n, 0, r)
      end
  | None =>
      match s with
      | String "."%char r' => digitpart r' 0 0
      | _ => None
      end
  end.

Definition parse_sign (s : string) : bool * string :=
  match s with
  | String "-"%char r => (true, r)
  | String "+"%char r => (false, r)
  | _ => (false, s)
  end.

(** [("e" | "E") [sign] digitpart]; an "e" that no exponent follows is
    left unread. *)
Definition parse_exponent (s : string) : Z * string :=
  match s with
  | String c r =>
      if Ascii.eqb c "e" || Ascii.eqb c "E" then
        let '(neg, r1) := parse_sign r in
        match digitpart r1 0 0 with
        | Some (x, _, r2) => ((if neg then - x else x), r2)
        | None => (0, s)
        end
      else (0, s)
  | EmptyString => (0, s)
  end.

(** The float nearest to [n * 10^x], [0 <= n]. *)
Definition of_decimal (n x : Z) : float :=
  match x with
  | Zneg p => of_ratio n (10 ^ Zpos p)
  | _ => of_ratio (n * 10 ^ x) 1
  end.

Fixpoint lstrip (s : string) : string :=
  match s with
  | String c r => if is_float_space c then lstrip r else s
  | EmptyString => s
  end.

Definition strip (s : string) : string :=
  PyStr.rev (lstrip (PyStr.rev (lstrip s))).

Definition with_sign (neg : bool) (x : float) : float :=
  if neg then SFopp x else x.

(** [float(s)] for a [str]: blanks off both ends, a sign, then [inf],
    [infinity] or [nan] in any case, or a decimal number with an optional
    exponent, up to the end of the string.  Anything else is a
    [ValueError]. *)
Definition of_string (s : string) : result float :=
  let '(neg, r) := parse_sign (strip s) in
  if PyStr.caseless_eqb r "inf" || PyStr.caseless_eqb r "infinity"
  then ret (S754_infinity neg)
  else if PyStr.caseless_eqb r "nan" then ret S754_nan
  else
    match parse_number r with
    | Some (n, k, r1) =>
        match parse_exponent r1 with
        | (x, EmptyString) => ret (with_sign neg (of_decimal n (x - k)))
        | (_, String _ _) => raise ValueError
        end
    | None => raise ValueError
    end.

End PyFloat.

(** ** The reals behind the floats *)

Module Real.

Import PyFloat.

Definition bpow (e : Z) : R := powerRZ 2 e.

Definition F2R (m e : Z) : R := (IZR m * bpow e)%R.

Global Arguments bpow : simpl never.
Global Arguments F2R : simpl never.

(** The real a float stands for; an infinity counts as [2^emax], past
    every finite float. *)
Definition val (x : float) : R :=
  match x with
  | S754_finite s m e => F2R (cond_Zopp s (Zpos m)) e
  | S754_infinity s => if s then (- bpow emax)%R else bpow emax
  | _ => 0%R
  end.

(** The non-negative floats: zeros, bounded positive numbers, [+inf]. *)
Definition nn (x : float) : Prop :=
  match x with
  | S754_zero _ => True
  | S754_infinity s => s = false
  | S754_finite s m e => s = false /\ bounded prec emax m e = true
  | S754_nan => False
  end.

(** [x] lies between [m * 2^e] and [(m+1) * 2^e] at the place [l] says. *)
Definition locates (x : R) (m e : Z) (l : location) : Prop :=
  match l with
  | loc_Exact => x = F2R m e
  | loc_Inexact Lt => (F2R m e < x < (IZR m + /2) * bpow e)%R
  | loc_Inexact Eq => x = ((IZR m + /2) * bpow e)%R
  | loc_Inexact Gt => ((IZR m + /2) * bpow e < x < F2R (m + 1) e)%R
  end.

Definition rec_locates (x : R) (mrs : shr_record) (e : Z) : Prop :=
  0 <= shr_m mrs /\ locates x (shr_m mrs) e (loc_of_shr_record mrs).

(** [2^(k-1) <= x < 2^k]. *)
Definition mag_is (x : R) (k : Z) : Prop := (bpow (k - 1) <= x < bpow k)%R.

(** [M] is the integer nearest to [x / 2^c], the even one when two are. *)
Definition is_RNE (x : R) (c M : Z) : Prop :=
  ((IZR M - /2) * bpow c <= x <= (IZR M + /2) * bpow c)%R
  /\ (x = ((IZR M - /2) * bpow c)%R \/ x = ((IZR M + /2) * bpow c)%R ->
      Z.even M = true).

(** What rounding a positive real gives, [V] being the rounded value. *)
Inductive nn_result (V : R) : float -> Prop :=
| nn_zero : V = 0%R -> nn_result V (S754_zero false)
| nn_inf : (bpow emax <= V)%R -> nn_result V (S754_infinity false)
| nn_fin m e :
    bounded prec emax m e = true -> F2R (Zpos m) e = V ->
    (V < bpow emax)%R -> nn_result V (S754_finite false m e).

(** [f] is the positive real [x] rounded to nearest, ties to even. *)
Definition rounds_to (x : R) (f : float) : Prop :=
  exists k M, mag_is x k /\ is_RNE x (fexp prec emax k) M /\ 0 <= M
    /\ nn_result (F2R M (fexp prec emax k)) f.

(** The last step of [binary_round_aux]. *)
Definition finish (s : bool) (r : shr_record * Z) : float :=
  match shr_m (fst r) with
  | Z0 => S754_zero s
  | Zpos m =>
      if snd r <=? emax - prec then S754_finite s m (snd r)
      else S754_infinity s
  | Zneg _ => S754_nan
  end.

End Real.

(** ** The progress parser *)

Module Progress.

Import PyFloat.

Fixpoint take_while (p : ascii -> bool) (s : string) : string :=
  match s with
  | String c r => if p c then String c (take_while p r) else EmptyString
  | EmptyString => EmptyString
  end.

(** [re.compile(key + "(" + class + "+)").search(line)]: the leftmost place
    where [key] is followed by at least one character of the class; group 1
    is the longest run of such characters there. *)
Fixpoint re_search (key : string) (class : ascii -> bool) (line : string)
  : option string :=
  let here :=
    match PyStr.strip_prefix key line with
    | Some rest =>
        match take_while class rest with
        | EmptyString => None
        | g => Some g
        end
    | None => None
    end in
  match here with
  | Some g => Some g
  | None =>
      match line with
      | String _ r => re_search key class r
      | EmptyString => None
      end
  end.

(** [re_us = out_time_ms=(\d+)] and [re_hms = out_time=([\d:.]+)]. *)
Definition is_hms_char (c : ascii) : bool :=
  is_digit c || Ascii.eqb c ":" || Ascii.eqb c ".".

Definition re_us : string -> option string :=
  re_search "out_time_ms=" is_digit.

Definition re_hms : string -> option string :=
  re_search "out_time=" is_hms_char.

(** The number a run of ASCII digits denotes in base 10, after [acc]. *)
Fixpoint int_of_digits (s : string) (acc : Z) : Z :=
  match s with
  | String c r => int_of_digits r (10 * acc + digit_val c)
  | EmptyString => acc
  end.

(** [sys.get_int_max_str_digits()], at its default. *)
Definition int_max_str_digits : Z := 4300.

(** [int(s)] on a non-empty run of ASCII digits: the interpreter refuses
    with [ValueError] a string of more digits than the limit, leading
    zeros counted, and converts every other one. *)
Definition int_of_str (s : string) : result Z :=
  if int_max_str_digits <? Z.of_nat (String.length s)
  then raise ValueError
  else ret (int_of_digits s 0).

(** [s.split(":")]. *)
Fixpoint split_colon (s : string) : list string :=
  match s with
  | EmptyString => [EmptyString]
  | String c r =>
      if Ascii.eqb c ":" then EmptyString :: split_colon r
      else
        match split_colon r with
        | w :: ws => String c w :: ws
        | [] => [String c EmptyString]
        end
  end.

Local Open Scope py_scope.

(** [h, m_, s = map(float, g.split(":"))] and the sum
    [h * 3600 + m_ * 60 + s].  Every way this can fail (a field [float]
    rejects, fewer or more than three fields) is a [ValueError]. *)
Definition hms_seconds (g : string) : result float :=
  match split_colon g with
  | [a; b; c] =>
      h <- of_string a ;;
      m_ <- of_string b ;;
      s <- of_string c ;;
      ret (fadd (fadd (fmul h (of_Z 3600)) (fmul m_ (of_Z 60))) s)
  | _ => raise ValueError
  end.

(** The [if / elif / else] at the head of the loop body: [None] is the
    [continue], otherwise the computation of [done_seconds]. *)
Definition done_seconds (line : string) : option (result float) :=
  match re_us line with
  | Some g => Some (n <- int_of_str g ;; int_truediv n 1000000)
  | None =>
      match re_hms line with
      | Some g => Some (hms_seconds g)
      | None => None
      end
  end.

(** [min(done_seconds / total_duration * 100, 100)]. *)
Definition percent (done total_duration : float) : result float :=
  q <- truediv done total_duration ;;
  ret (min_100 (fmul q hundred)).

(** One pass through the loop body, from [last_pct]: the exception raised,
    or the new [last_pct] with the percentage printed, if any. *)
Definition loop_body (total_duration : float) (last_pct : Z) (line : string)
  : result (Z * option float) :=
  match done_seconds line with
  | None => ret (last_pct, None)
  | Some d =>
      done <- d ;;
      pct <- percent done total_duration ;;
      t <- to_int pct ;;
      if t =? last_pct then ret (last_pct, None)
      else ret (t, Some pct)
  end.

(** The [for] loop: the percentages printed, in order, and how the loop
    ended. *)
Fixpoint loop (total_duration : float) (last_pct : Z) (lines : list string)
  : list float * result Z :=
  match lines with
  | [] => ([], ret last_pct)
  | line :: rest =>
      match loop_body total_duration last_pct line with
      | inl e => ([], inl e)
      | inr (last', out) =>
          let '(outs, r) := loop total_duration last' rest in
          (match out with Some p => p :: outs | None => outs end, r)
      end
  end.

End Progress.

(** ** The script *)

Module Script.

(** What the script sees of the outside: the text [ffprobe] prints for a
    command line, or the exception [subprocess.check_output] raises; and
    for [ffmpeg], the exception [subprocess.Popen] raises, or the lines of
    the merged output followed by the return code [proc.wait()] finds. *)
Record World : Type := {
  check_output : list string -> result string;
  popen : list string -> result (list string * Z)
}.

(** What the script does to the outside, in order. *)
Inductive event : Type :=
| EvCheckOutput (cmd : list string)
| EvPopen (cmd : list string)
| EvCodecs (audio video : string)
| EvProgress (pct : PyFloat.float)
| EvWait
| EvStatus (completed : bool) (dst : string).

(** A command: the events it caused and its result. *)
Definition io (A : Type) : Type := (list event * result A)%type.

Definition io_ret {A} (a : A) : io A := ([], ret a).
Definition io_lift {A} (r : result A) : io A := ([], r).
Definition io_emit (ev : event) : io unit := ([ev], ret tt).
Definition io_bind {A B} (m : io A) (k : A -> io B) : io B :=
  match m with
  | (t, inl e) => (t, inl e)
  | (t, inr a) => let '(t', r) := k a in ((t ++ t')%list, r)
  end.

Declare Scope io_scope.
Delimit Scope io_scope with io.
Notation "x <- m ;; k" := (io_bind m (fun x => k))
  (at level 61, m at next level, right associativity) : io_scope.
Notation "m ;; k" := (io_bind m (fun _ => k))
  (at level 61, right associativity) : io_scope.

Local Open Scope io_scope.

(** [str.strip()]: the white space [str.isspace] knows below U+0100. *)
Definition is_space (c : ascii) : bool :=
  let n := N_of_ascii c in
  ((9 <=? n) && (n <=? 13) || (28 <=? n) && (n <=? 32)
   || (n =? 133) || (n =? 160))%N.

Fixpoint str_lstrip (s : string) : string :=
  match s with
  | String c r => if is_space c then str_lstrip r else s
  | EmptyString => s
  end.

Definition str_strip (s : string) : string :=
  PyStr.rev (str_lstrip (PyStr.rev (str_lstrip s))).

(** [s.rfind(c)], counting from [i]; -1 when [c] does not occur. *)
Fixpoint rfind_from (c : ascii) (s : string) (i : Z) : Z :=
  match s with
  | EmptyString => -1
  | String a r =>
      let j := rfind_from c r (i + 1) in
      if 0 <=? j then j else if Ascii.eqb a c then i else -1
  end.

Definition rfind (c : ascii) (s : string) : Z := rfind_from c s 0.

Fixpoint all_dots (s : string) : bool :=
  match s with
  | EmptyString => true
  | String c r => Ascii.eqb c "." && all_dots r
  end.

Definition slice (s : string) (lo hi : Z) : string :=
  substring (Z.to_nat lo) (Z.to_nat (hi - lo)) s.

(** [os.path.splitext] of [posixpath]: split at the last dot of the last
    path component, unless that component has only dots before it. *)
Definition splitext (p : string) : string * string :=
  let sepIndex := rfind "/" p in
  let dotIndex := rfind "." p in
  if (sepIndex <? dotIndex)
     && negb (all_dots (slice p (sepIndex + 1) dotIndex))
  then (slice p 0 dotIndex, slice p dotIndex (Z.of_nat (String.length p)))
  else (p, EmptyString).

Section WithWorld.

Variable w : World.

Definition call_check_output (cmd : list string) : io string :=
  ([EvCheckOutput cmd], check_output w cmd).

Definition call_popen (cmd : list string) : io (list string * Z) :=
  ([EvPopen cmd], popen w cmd).

Definition field_cmd (path sel field : string) : list string :=
  ["ffprobe"; "-v"; "error";
   "-select_streams"; sel;
   "-show_entries"; ("stream=" ++ field)%string;
   "-of"; "default=noprint_wrappers=1:nokey=1";
   path].

Definition ffprobe_field (path sel field : string) : io string :=
  out <- call_check_output (field_cmd path sel field) ;;
  io_ret (str_strip out).

Definition duration_cmd (path : string) : list string :=
  ["ffprobe"; "-v"; "error";
   "-show_entries"; "format=duration";
   "-of"; "default=noprint_wrappers=1:nokey=1";
   path].

Definition get_duration (path : string) : io PyFloat.float :=
  out <- call_check_output (duration_cmd path) ;;
  io_lift (PyFloat.of_string (str_strip out)).

Definition detect_audio_codec (path : string) : io string :=
  ffprobe_field path "a:0" "codec_name".

Definition detect_video_codec (path : string) : io string :=
  ffprobe_field path "v:0" "codec_name".

(** [x or 'unknown']. *)
Definition or_unknown (x : string) : string :=
  match x with
  | EmptyString => "unknown"
  | _ => x
  end.

(** The [for] loop as a command: one [EvProgress] per printed update. *)
Definition progress_loop (total_duration : PyFloat.float)
    (lines : list string) : io Z :=
  let '(outs, r) := Progress.loop total_duration (-1) lines in
  (map EvProgress outs, r).

(** [remux_with_progress] never returns: it ends in [sys.exit] or in the
    first exception of a step before it. *)
Definition remux_with_progress (src : string) : io unit :=
  total_duration <- get_duration src ;;
  let dst := (fst (splitext src) ++ ".mp4")%string in
  acodec <- detect_audio_codec src ;;
  vcodec <- detect_video_codec src ;;
  io_emit (EvCodecs (or_unknown acodec) (or_unknown vcodec)) ;;
  let cmd := build_ffmpeg_cmd src dst acodec vcodec in
  proc <- call_popen cmd ;;
  let '(stdout, returncode) := proc in
  _ <- progress_loop total_duration stdout ;;
  io_emit EvWait ;;
  io_emit (EvStatus (returncode =? 0) dst) ;;
  io_lift (raise (SystemExit returncode)).

End WithWorld.

End Script.

(** ** Vocabulary of the properties *)

Module Spec.

Import PyFloat.

Definition zero : float := S754_zero false.

(** [clamp(x, 0, 100)]: [x] brought into the closed range from 0 to 100. *)
Definition clamp_0_100 (x : float) : float :=
  if flt x zero then zero
  else if flt hundred x then hundred
  else x.

(** A duration that is a positive number. *)
Definition positive_finite (D : float) : bool :=
  match D with
  | S754_finite false _ _ => true
  | _ => false
  end.

(** The percent when the division goes through, as a function of the
    elapsed time. *)
Definition pct (D E : float) : float :=
  min_100 (fmul (SFdiv prec emax E D) hundred).

(** The truncated values of the updates a run of the loop prints. *)
Definition emitted (total_duration : float) (lines : list string) : list Z :=
  map trunc (fst (Progress.loop total_duration (-1) lines)).

(** The truncated percent of every line that reaches the comparison with
    [last_pct], in order, up to the first exception. *)
Fixpoint line_truncs (total_duration : float) (lines : list string) : list Z :=
  match lines with
  | [] => []
  | line :: rest =>
      match Progress.done_seconds line with
      | None => line_truncs total_duration rest
      | Some d =>
          match bind d (fun done =>
                bind (Progress.percent done total_duration) to_int) with
          | inl _ => []
          | inr t => t :: line_truncs total_duration rest
          end
      end
  end.

(** [chain r l]: each element of [l] is in relation [r] with the next. *)
Fixpoint chain {A : Type} (r : A -> A -> bool) (l : list A) : bool :=
  match l with
  | a :: (b :: _) as t => r a b && chain r t
  | _ => true
  end.

Definition nondecreasing : list Z -> bool := chain Z.leb.
Definition increasing : list Z -> bool := chain Z.ltb.
Definition no_repeat : list Z -> bool := chain (fun a b => negb (a =? b)).

(** The elapsed times the successive lines carry, up to the first line
    whose elapsed time cannot be computed. *)
Fixpoint elapsed (lines : list string) : list float :=
  match lines with
  | [] => []
  | line :: rest =>
      match Progress.done_seconds line with
      | None => elapsed rest
      | Some (inl _) => []
      | Some (inr E) => E :: elapsed rest
      end
  end.

Fixpoint all_chars (p : ascii -> bool) (s : string) : bool :=
  match s with
  | EmptyString => true
  | String c r => p c && all_chars p r
  end.

(** A list without the elements equal to their predecessor, [last] being
    the predecessor of the first. *)
Fixpoint dedup (last : Z) (l : list Z) : list Z :=
  match l with
  | [] => []
  | t :: r => if t =? last then dedup last r else t :: dedup t r
  end.

(** The exceptions of conversions and divisions. *)
Definition arithmetic_error (e : exn) : Prop :=
  e = ValueError \/ e = ZeroDivisionError \/ e = OverflowError.

(** A world for examples: [ffprobe] prints [duration] for the duration and
    [codec] for both codec queries, [ffmpeg] prints [lines] and ends with
    [rc]. *)
Definition world_of (duration codec : string) (lines : list string) (rc : Z)
  : Script.World :=
  {| Script.check_output := fun cmd =>
       match cmd with
       | [_; _; _; _; "format=duration"; _; _; _] => inr duration
       | _ => inr codec
       end;
     Script.popen := fun _ => inr (lines, rc) |}.

End Spec.

(** ** Checking a property of every character *)

Definition forall_bool (f : bool -> bool) : bool := f true && f false.

Definition forall_ascii (f : ascii -> bool) : bool :=
  forall_bool (fun b0 => forall_bool (fun b1 => forall_bool (fun b2 =>
  forall_bool (fun b3 => forall_bool (fun b4 => forall_bool (fun b5 =>
  forall_bool (fun b6 => forall_bool (fun b7 =>
    f (Ascii b0 b1 b2 b3 b4 b5 b6 b7))))))))).

(** A character that [str.lower] and ASCII folding both leave alone and
    that no other character is mapped to by one and not the other: the
    ASCII characters that are not capitals. *)
Definition plain (c : ascii) : bool :=
  let n := N_of_ascii c in ((n <? 65) || (90 <? n) && (n <? 128))%N.

Fixpoint all_plain (s : string) : bool :=
  match s with
  | EmptyString => true
  | String c r => plain c && all_plain r
  end.

(** ** Vocabulary of the further properties *)

Module Shapes.

(** A line that carries an elapsed time, for either regular expression. *)
Definition has_time (line : string) : bool :=
  match Progress.done_seconds line with
  | Some _ => true
  | None => false
  end.

Fixpoint count_colons (s : string) : nat :=
  match s with
  | EmptyString => O
  | String c r => if Ascii.eqb c ":" then S (count_colons r) else count_colons r
  end.

Definition in_range (lo hi t : Z) : Prop := lo <= t <= hi.

(** [tail] is empty or starts with a character outside [p]. *)
Definition stops (p : ascii -> bool) (tail : string) : Prop :=
  match tail with
  | EmptyString => True
  | String c _ => p c = false
  end.

(** The largest finite float, [(2^53 - 1) * 2^971]. *)
Definition max_float_Z : Z := (2 ^ 53 - 1) * 2 ^ 971.

(** [c not in s]. *)
Definition lacks (c : ascii) (s : string) : bool :=
  Spec.all_chars (fun a => negb (Ascii.eqb a c)) s.

(** A directory prefix: nothing, or a path that ends with the separator. *)
Definition dir_prefix (dir : string) : Prop :=
  dir = "" \/ exists d, dir = d ++ "/".

End Shapes.

(** ** The entry point *)

Module Main.

Import Script.

(** [s.endswith(suffix)]: one of the tails of [s] is [suffix]. *)
Fixpoint endswith (s suffix : string) : bool :=
  String.eqb s suffix
  || match s with
     | String _ r => endswith r suffix
     | EmptyString => false
     end.

(** How the [__main__] block ends: [sys.exit] with a message before
    anything was run, or the run of [remux_with_progress]. *)
Inductive main_end : Type :=
| ExitMessage (msg : string)
| Remuxed (run : io unit).

(** The [__main__] block, from the path [pick_mkv] returned (empty when the
    dialog was cancelled). *)
Definition main (w : World) (source_file : string) : main_end :=
  match source_file with
  | EmptyString => ExitMessage "No file selected."
  | _ =>
      if negb (endswith (PyStr.lower source_file) ".mkv")
      then ExitMessage "Please pick an MKV."
      else Remuxed (remux_with_progress w source_file)
  end.

Definition is_popen (ev : event) : bool :=
  match ev with
  | EvPopen _ => true
  | _ => false
  end.

Definition is_progress (ev : event) : bool :=
  match ev with
  | EvProgress _ => true
  | _ => false
  end.

(** The five events up to the start of [ffmpeg]. *)
Definition prelude (src aout vout : string) : list event :=
  [EvCheckOutput (duration_cmd src);
   EvCheckOutput (field_cmd src "a:0" "codec_name");
   EvCheckOutput (field_cmd src "v:0" "codec_name");
   EvCodecs (or_unknown (str_strip aout)) (or_unknown (str_strip vout));
   EvPopen (build_ffmpeg_cmd src (fst (splitext src) ++ ".mp4")
              (str_strip aout) (str_strip vout))].

End Main.

(* ------------------------------------------------------------------ *)
(** * Properties *)

Lemma forall_bool_spec (f : bool -> bool) :
  forall_bool f = true -> forall b, f b = true.
Proof.
  unfold forall_bool. intros H b.
  apply andb_true_iff in H. destruct H as [Ht Hf]. now destruct b.
Qed.

Lemma forall_ascii_spec (f : ascii -> bool) :
  forall_ascii f = true -> forall c, f c = true.
Proof.
  intros H [b0 b1 b2 b3 b4 b5 b6 b7]. unfold forall_ascii in H.
  pose proof (forall_bool_spec _ H b0) as H0. cbv beta in H0.
  pose proof (forall_bool_spec _ H0 b1) as H1. cbv beta in H1.
  pose proof (forall_bool_spec _ H1 b2) as H2. cbv beta in H2.
  pose proof (forall_bool_spec _ H2 b3) as H3. cbv beta in H3.
  pose proof (forall_bool_spec _ H3 b4) as H4. cbv beta in H4.
  pose proof (forall_bool_spec _ H4 b5) as H5. cbv beta in H5.
  pose proof (forall_bool_spec _ H5 b6) as H6. cbv beta in H6.
  exact (forall_bool_spec _ H6 b7).
Qed.

(** ** The plan builder *)

Section Caseless.

Import PyStr.

(** On a plain character [t], comparing [c.lower()] with [t] is comparing
    [c] and [t] up to ASCII case. *)
Lemma chr_lower_caseless (c t : ascii) :
  plain t = true ->
  Ascii.eqb (chr_lower c) t = Ascii.eqb (ascii_fold c) (ascii_fold t).
Proof.
  revert t c.
  assert (H : forall_ascii (fun t => forall_ascii (fun c =>
            implb (plain t)
              (Bool.eqb (Ascii.eqb (chr_lower c) t)
                        (Ascii.eqb (ascii_fold c) (ascii_fold t))))) = true)
    by (vm_compute; reflexivity).
  intros t c Ht.
  pose proof (forall_ascii_spec _ (forall_ascii_spec _ H t) c) as Hc.
  cbv beta in Hc. rewrite Ht in Hc. simpl in Hc.
  now apply Bool.eqb_prop in Hc.
Qed.

Lemma lower_caseless (t s : string) :
  all_plain t = true ->
  String.eqb (lower s) t = caseless_eqb s t.
Proof.
  revert s. induction t as [|b t IH]; intros [|a s] Ht; simpl; try reflexivity.
  simpl in Ht. apply andb_true_iff in Ht. destruct Ht as [Hb Ht].
  rewrite chr_lower_caseless by exact Hb. now rewrite IH.
Qed.

End Caseless.

(** C1. Whatever the paths and the video codec, the command line carries
    exactly one audio codec option, at a fixed place: [-c:a alac] when the
    audio codec is "dts" up to case, [-c:a copy] for any other value, the
    empty string included. *)
Theorem C1_audio_action (src dst acodec vcodec : string) :
  build_ffmpeg_cmd src dst acodec vcodec =
    (["ffmpeg"; "-y"; "-i"; src; "-c:v"; "copy";
      "-c:a"; (if PyStr.caseless_eqb acodec "dts" then "alac" else "copy");
      "-movflags"; "+faststart"]
     ++ tag_args vcodec
     ++ ["-progress"; "pipe:1"; "-nostats"; dst])%list.
Proof.
  unfold build_ffmpeg_cmd, audio_args.
  rewrite (lower_caseless "dts") by reflexivity.
  now destruct (PyStr.caseless_eqb acodec "dts").
Qed.

(** C6. The command line carries [-tag:v hvc1], after the container flags,
    when the video codec is "hevc" or "h265" up to case, and no tag option
    for any other value. *)
Theorem C6_tag_override (src dst acodec vcodec : string) :
  build_ffmpeg_cmd src dst acodec vcodec =
    (["ffmpeg"; "-y"; "-i"; src; "-c:v"; "copy"]
     ++ audio_args acodec
     ++ ["-movflags"; "+faststart"]
     ++ (if PyStr.caseless_eqb vcodec "hevc" || PyStr.caseless_eqb vcodec "h265"
         then ["-tag:v"; "hvc1"] else [])
     ++ ["-progress"; "pipe:1"; "-nostats"; dst])%list.
Proof.
  unfold build_ffmpeg_cmd, tag_args.
  rewrite (lower_caseless "hevc"), (lower_caseless "h265") by reflexivity.
  reflexivity.
Qed.

(** C10. Every command line built starts with [ffmpeg -y]: the overwrite
    flag is there for all paths and codecs, ahead of the input, and the
    destination is the last argument. *)
Theorem C10_overwrite_flag (src dst acodec vcodec : string) :
  In "-y" (build_ffmpeg_cmd src dst acodec vcodec)
  /\ firstn 2 (build_ffmpeg_cmd src dst acodec vcodec) = ["ffmpeg"; "-y"]
  /\ last (build_ffmpeg_cmd src dst acodec vcodec) "" = dst.
Proof.
  unfold build_ffmpeg_cmd, audio_args, tag_args.
  destruct (String.eqb (PyStr.lower acodec) "dts");
    destruct (String.eqb (PyStr.lower vcodec) "hevc"
              || String.eqb (PyStr.lower vcodec) "h265");
    simpl; auto.
Qed.

(** ** Rounding to nearest in binary64 *)

Module Round.

Import PyFloat Real Spec.

Ltac fexp_lia := unfold fexp, SpecFloat.emin, prec, emax in *; lia.

Section Powers.
Local Open Scope R_scope.

Lemma bpow_gt_0 e : 0 < bpow e.
Proof. apply powerRZ_lt. lra. Qed.

Lemma bpow_plus a b : bpow (a + b) = bpow a * bpow b.
Proof. apply powerRZ_add. lra. Qed.

Lemma bpow_0 : bpow 0 = 1.
Proof. reflexivity. Qed.

Lemma bpow_1 : bpow 1 = 2.
Proof. unfold bpow. simpl. lra. Qed.

Lemma bpow_succ a : bpow (a + 1) = 2 * bpow a.
Proof. rewrite bpow_plus, bpow_1. lra. Qed.

Lemma bpow_IZR n : (0 <= n)%Z -> bpow n = IZR (2 ^ n).
Proof.
  intros H. unfold bpow. destruct n as [|p|p]; [reflexivity| |lia].
  rewrite <- Zpower_pos_powerRZ. reflexivity.
Qed.

Lemma bpow_ge_1 n : (0 <= n)%Z -> 1 <= bpow n.
Proof.
  intros H. rewrite bpow_IZR by exact H. apply IZR_le.
  pose proof (Z.pow_pos_nonneg 2 n). lia.
Qed.

Lemma bpow_le a b : (a <= b)%Z -> bpow a <= bpow b.
Proof.
  intros H. replace b with (a + (b - a))%Z by lia.
  rewrite bpow_plus.
  assert (1 <= bpow (b - a)) by (apply bpow_ge_1; lia).
  pose proof (bpow_gt_0 a). nra.
Qed.

Lemma bpow_lt a b : (a < b)%Z -> bpow a < bpow b.
Proof.
  intros H. replace b with (a + 1 + (b - a - 1))%Z by lia.
  rewrite bpow_plus, bpow_succ.
  assert (1 <= bpow (b - a - 1)) by (apply bpow_ge_1; lia).
  pose proof (bpow_gt_0 a). nra.
Qed.

Lemma bpow_lt_inv a b : bpow a < bpow b -> (a < b)%Z.
Proof.
  intros H. destruct (Z_lt_le_dec a b) as [Hl|Hg]; [exact Hl|].
  apply bpow_le in Hg. lra.
Qed.

Lemma bpow_le_inv a b : bpow a <= bpow b -> (a <= b)%Z.
Proof.
  intros H. destruct (Z_lt_le_dec b a) as [Hl|Hg]; [|exact Hg].
  apply bpow_lt in Hl. lra.
Qed.

Lemma F2R_shift m e n : (0 <= n)%Z -> F2R (m * 2 ^ n) e = F2R m (e + n).
Proof.
  intros H. unfold F2R. rewrite mult_IZR, <- bpow_IZR by exact H.
  rewrite bpow_plus. ring.
Qed.

End Powers.

Section Digits.
Local Open Scope Z_scope.

Lemma digits2_pos_size p : digits2_pos p = Pos.size p.
Proof. induction p; simpl; congruence. Qed.

Lemma Zdigits2_log2 m : 0 < m -> Zdigits2 m = Z.log2 m + 1.
Proof.
  destruct m as [|p|p]; try lia. intros _. simpl.
  rewrite digits2_pos_size. destruct p; simpl; lia.
Qed.

Lemma Zdigits2_bounds m : 0 < m -> 2 ^ (Zdigits2 m - 1) <= m < 2 ^ Zdigits2 m.
Proof.
  intros H. rewrite Zdigits2_log2 by exact H.
  replace (Z.log2 m + 1 - 1) with (Z.log2 m) by lia.
  apply Z.log2_spec. exact H.
Qed.

Lemma Zdigits2_unique m d : 2 ^ (d - 1) <= m < 2 ^ d -> 0 < m -> Zdigits2 m = d.
Proof.
  intros H Hm. rewrite Zdigits2_log2 by exact Hm.
  assert (0 <= d - 1).
  { destruct (Z_lt_le_dec (d - 1) 0) as [Hn|]; [|assumption].
    destruct (Z_lt_le_dec d 0) as [Hd|Hd].
    - rewrite (Z.pow_neg_r 2 d) in H by lia. lia.
    - assert (d = 0) by lia. subst d. simpl in H. lia. }
  rewrite (Z.log2_unique m (d - 1)); try lia.
  replace (Z.succ (d - 1)) with d by lia. exact H.
Qed.

Lemma Zdigits2_pos m : 0 < m -> 0 < Zdigits2 m.
Proof. destruct m; simpl; lia. Qed.

Lemma Zdigits2_mono a b : 0 < a -> a <= b -> Zdigits2 a <= Zdigits2 b.
Proof.
  intros Ha Hab. rewrite !Zdigits2_log2 by lia.
  pose proof (Z.log2_le_mono a b Hab). lia.
Qed.

End Digits.

Section Magnitude.
Local Open Scope R_scope.

Lemma F2R_mag m e : (0 < m)%Z -> mag_is (F2R m e) (Zdigits2 m + e).
Proof.
  intros H. pose proof (Zdigits2_bounds m H) as [Hl Hu].
  pose proof (Zdigits2_pos m H) as Hd.
  unfold mag_is, F2R.
  replace (Zdigits2 m + e - 1)%Z with ((Zdigits2 m - 1) + e)%Z by lia.
  rewrite !bpow_plus.
  rewrite (bpow_IZR (Zdigits2 m - 1)), (bpow_IZR (Zdigits2 m)) by lia.
  pose proof (bpow_gt_0 e). apply IZR_le in Hl. apply IZR_lt in Hu.
  split; [apply Rmult_le_compat_r; lra | apply Rmult_lt_compat_r; lra].
Qed.

Lemma mag_le x y a b : mag_is x a -> mag_is y b -> x <= y -> (a <= b)%Z.
Proof.
  intros [Ha1 Ha2] [Hb1 Hb2] Hxy.
  assert (bpow (a - 1) < bpow b) by lra.
  apply bpow_lt_inv in H. lia.
Qed.

Lemma mag_unique x a b : mag_is x a -> mag_is x b -> a = b.
Proof.
  intros Ha Hb.
  pose proof (mag_le x x a b Ha Hb (Rle_refl x)).
  pose proof (mag_le x x b a Hb Ha (Rle_refl x)). lia.
Qed.

Lemma F2R_ge_0 m e : (0 <= m)%Z -> 0 <= F2R m e.
Proof.
  intros H. unfold F2R. apply IZR_le in H. pose proof (bpow_gt_0 e). nra.
Qed.

Lemma F2R_le m n e : (m <= n)%Z -> F2R m e <= F2R n e.
Proof.
  intros H. unfold F2R. apply IZR_le in H. pose proof (bpow_gt_0 e). nra.
Qed.

Lemma F2R_le_inv m n e : F2R m e <= F2R n e -> (m <= n)%Z.
Proof.
  unfold F2R. intros H. apply le_IZR. pose proof (bpow_gt_0 e). nra.
Qed.

Lemma F2R_succ m e : F2R (m + 1) e = F2R m e + bpow e.
Proof. unfold F2R. rewrite plus_IZR. ring. Qed.

End Magnitude.

(** Shifting a located mantissa right keeps the location. *)
Section ShiftRight.
Local Open Scope R_scope.

Lemma locates_record x m e l :
  (0 <= m)%Z -> locates x m e l -> rec_locates x (shr_record_of_loc m l) e.
Proof.
  intros Hm H. unfold rec_locates.
  destruct l as [|[]]; simpl; auto.
Qed.

Lemma shr_1_locates x mrs e :
  rec_locates x mrs e -> rec_locates x (shr_1 mrs) (e + 1).
Proof.
  destruct mrs as [m r s]. intros [Hm H]. simpl in Hm.
  assert (Hcase : exists (p : Z) (b : bool), (0 <= p)%Z /\ m = (2 * p + (if b then 1 else 0))%Z
            /\ shr_1 (Build_shr_record m r s)
               = Build_shr_record p b (r || s)).
  { destruct m as [|[q|q|]|q]; try lia.
    - exists 0%Z, false. simpl. repeat split; lia.
    - exists (Zpos q), true. simpl. repeat split; lia.
    - exists (Zpos q), false. simpl. repeat split; lia.
    - exists 0%Z, true. simpl. repeat split; lia. }
  destruct Hcase as (p & b & Hp & Hmp & Hs).
  unfold rec_locates. rewrite Hs. simpl shr_m.
  split; [exact Hp|]. simpl shr_m in H.
  pose proof (bpow_gt_0 e) as He.
  assert (Hm2 : IZR m = 2 * IZR p + (if b then 1 else 0 : R)).
  { rewrite Hmp, plus_IZR, mult_IZR. destruct b; reflexivity. }
  unfold locates, F2R in *. rewrite bpow_succ.
  rewrite ?plus_IZR in *.
  destruct b, r, s; simpl in *; rewrite Hm2 in H; simpl in H; try lra;
    repeat split; try nra.
Qed.

End ShiftRight.

Section StageOne.
Local Open Scope R_scope.

Lemma iter_pos_locates p : forall x mrs e,
  rec_locates x mrs e -> rec_locates x (iter_pos shr_1 p mrs) (e + Zpos p).
Proof.
  induction p as [p IH|p IH|]; intros x mrs e H; simpl.
  - replace (e + Zpos p~1)%Z with (e + 1 + Zpos p + Zpos p)%Z by lia.
    apply IH, IH, shr_1_locates, H.
  - replace (e + Zpos p~0)%Z with (e + Zpos p + Zpos p)%Z by lia.
    apply IH, IH, H.
  - apply shr_1_locates, H.
Qed.

Lemma shr_locates x mrs e n :
  rec_locates x mrs e -> (0 <= n)%Z ->
  rec_locates x (fst (shr mrs e n)) (e + n) /\ snd (shr mrs e n) = (e + n)%Z.
Proof.
  intros H Hn. destruct n as [|p|p]; simpl; try lia.
  - rewrite Z.add_0_r. auto.
  - split; [apply iter_pos_locates, H|reflexivity].
Qed.

Lemma locates_bounds x m e l :
  locates x m e l -> F2R m e <= x < F2R (m + 1) e.
Proof.
  pose proof (bpow_gt_0 e).
  destruct l as [|[]]; simpl; rewrite ?F2R_succ; unfold F2R; intros; nra.
Qed.

Lemma locates_mag x m e l k :
  locates x m e l -> (0 < m)%Z -> mag_is x k -> (Zdigits2 m + e)%Z = k.
Proof.
  intros Hl Hm Hk. apply locates_bounds in Hl.
  apply (mag_unique x); [|exact Hk].
  pose proof (F2R_mag m e Hm) as [H1 H2].
  split; [lra|].
  assert (F2R (m + 1) e <= bpow (Zdigits2 m + e)); [|lra].
  pose proof (Zdigits2_bounds m Hm) as [_ Hu].
  pose proof (Zdigits2_pos m Hm) as Hd.
  apply Rle_trans with (F2R (1 * 2 ^ Zdigits2 m) e).
  - apply F2R_le. lia.
  - rewrite F2R_shift by lia. unfold F2R.
    rewrite (Z.add_comm e). lra.
Qed.

(** The exponent the code shifts to is the one of the magnitude of [x]. *)
Lemma fexp_digits x m e l k :
  0 < x -> locates x m e l -> (0 <= m)%Z -> mag_is x k ->
  (e <= fexp prec emax k)%Z ->
  fexp prec emax (Zdigits2 m + e) = fexp prec emax k.
Proof.
  intros Hx Hl Hm Hk He.
  destruct (Z.eq_dec m 0) as [->|Hne].
  - simpl. apply locates_bounds in Hl. simpl in Hl.
    assert (Hke : (k <= e)%Z).
    { destruct Hk as [Hk _]. unfold F2R in Hl.
      assert (bpow (k - 1) < bpow e) by lra.
      apply bpow_lt_inv in H. lia. }
    fexp_lia.
  - now rewrite (locates_mag x m e l k) by (auto; lia).
Qed.

Lemma shr_fexp_locates x m e l k :
  0 < x -> locates x m e l -> (0 <= m)%Z -> mag_is x k ->
  (e <= fexp prec emax k)%Z ->
  rec_locates x (fst (shr_fexp prec emax m e l)) (fexp prec emax k)
  /\ snd (shr_fexp prec emax m e l) = fexp prec emax k.
Proof.
  intros Hx Hl Hm Hk He. unfold shr_fexp.
  rewrite (fexp_digits x m e l k) by assumption.
  pose proof (shr_locates x (shr_record_of_loc m l) e
                (fexp prec emax k - e) (locates_record x m e l Hm Hl)) as H.
  replace (e + (fexp prec emax k - e))%Z with (fexp prec emax k) in H by lia.
  apply H. lia.
Qed.

Lemma loc_of_record_of_loc m l :
  loc_of_shr_record (shr_record_of_loc m l) = l.
Proof. destruct l as [|[]]; reflexivity. Qed.

Lemma rne_locates x mrs c :
  rec_locates x mrs c ->
  is_RNE x c (round_nearest_even (shr_m mrs) (loc_of_shr_record mrs))
  /\ (0 <= round_nearest_even (shr_m mrs) (loc_of_shr_record mrs))%Z.
Proof.
  intros [Hm H]. pose proof (bpow_gt_0 c) as Hc.
  set (m := shr_m mrs) in *. set (l := loc_of_shr_record mrs) in *.
  unfold is_RNE, locates, F2R in *.
  destruct l as [|[]]; simpl.
  - repeat split; try lia; try nra; try (intros [E|E]; nra).
  - destruct (Z.even m) eqn:Ev.
    + repeat split; try lia; try nra; auto.
    + rewrite plus_IZR. repeat split; try lia; try nra.
      intros _. rewrite Z.even_add, Ev. reflexivity.
  - repeat split; try lia; try nra; try (intros [E|E]; nra).
  - rewrite plus_IZR in *.
    repeat split; try lia; try nra; try (intros [E|E]; nra).
Qed.

End StageOne.

Section RoundAux.
Local Open Scope R_scope.

Lemma binary_round_aux_eq s m e l :
  binary_round_aux prec emax s m e l
  = let r1 := shr_fexp prec emax m e l in
    finish s (shr_fexp prec emax
                (round_nearest_even (shr_m (fst r1))
                   (loc_of_shr_record (fst r1)))
                (snd r1) loc_Exact).
Proof.
  unfold binary_round_aux, finish.
  destruct (shr_fexp prec emax m e l) as [mrs' e']. simpl.
  destruct (shr_fexp prec emax _ e' loc_Exact) as [mrs'' e'']. reflexivity.
Qed.

(** Bounds on the rounded mantissa from the magnitude of [x]. *)
Lemma rne_upper x k c M :
  mag_is x k -> is_RNE x c M -> (c <= k)%Z -> (M <= 2 ^ (k - c))%Z.
Proof.
  intros [_ Hk] [[Hl _] _] Hck.
  pose proof (bpow_gt_0 c) as Hc.
  assert (Hb : bpow k = IZR (2 ^ (k - c)) * bpow c).
  { rewrite <- bpow_IZR, <- bpow_plus by lia. f_equal. lia. }
  rewrite Hb in Hk.
  assert (IZR M - /2 < IZR (2 ^ (k - c))) by nra.
  assert (IZR M < IZR (2 ^ (k - c) + 1)) by (rewrite plus_IZR; lra).
  apply lt_IZR in H0. lia.
Qed.

Lemma rne_zero x k c M :
  mag_is x k -> is_RNE x c M -> (k < c)%Z -> (0 <= M)%Z -> M = 0%Z.
Proof.
  intros [_ Hk] [[Hl _] _] Hck HM.
  pose proof (bpow_gt_0 c) as Hc0.
  assert (Hb : bpow c = 2 * bpow (c - 1)).
  { rewrite <- bpow_succ. f_equal. lia. }
  assert (bpow k <= bpow (c - 1)) by (apply bpow_le; lia).
  assert (IZR M < 1).
  { destruct (Rlt_le_dec (IZR M) 1) as [|Hge]; [assumption|]. nra. }
  apply lt_IZR in H0. lia.
Qed.

Lemma rne_lower x k c M :
  mag_is x k -> is_RNE x c M -> (c <= k - 1)%Z -> (2 ^ (k - 1 - c) <= M)%Z.
Proof.
  intros [Hk _] [[_ Hu] _] Hck.
  pose proof (bpow_gt_0 c) as Hc.
  assert (Hb : bpow (k - 1) = IZR (2 ^ (k - 1 - c)) * bpow c).
  { rewrite <- bpow_IZR, <- bpow_plus by lia. f_equal. lia. }
  rewrite Hb in Hk.
  assert (IZR (2 ^ (k - 1 - c)) < IZR M + 1) by nra.
  rewrite <- plus_IZR in H. apply lt_IZR in H. lia.
Qed.

(** A canonical pair overflows exactly when its value reaches [2^emax]. *)
Lemma canonical_range m e :
  canonical_mantissa prec emax m e = true ->
  if (e <=? emax - prec)%Z then F2R (Zpos m) e < bpow emax
  else bpow emax <= F2R (Zpos m) e.
Proof.
  unfold canonical_mantissa. intros Hc. apply Z.eqb_eq in Hc.
  pose proof (F2R_mag (Zpos m) e eq_refl) as [Hl Hu]. simpl Zdigits2 in *.
  destruct (Z.leb_spec e (emax - prec)) as [Hle|Hgt].
  - eapply Rlt_le_trans; [exact Hu|]. apply bpow_le. fexp_lia.
  - eapply Rle_trans; [|exact Hl]. apply bpow_le. fexp_lia.
Qed.

Lemma finish_canonical (m e : Z) (mrs : shr_record) :
  shr_m mrs = m -> (0 < m)%Z ->
  fexp prec emax (Zdigits2 m + e) = e ->
  nn_result (F2R m e) (finish false (mrs, e)).
Proof.
  intros Hm Hpos Hc. unfold finish. simpl fst. simpl snd. rewrite Hm.
  destruct m as [|p|p]; try lia.
  assert (Hcan : canonical_mantissa prec emax p e = true).
  { unfold canonical_mantissa. apply Z.eqb_eq. exact Hc. }
  pose proof (canonical_range p e Hcan) as Hr.
  destruct (e <=? emax - prec)%Z eqn:He.
  - apply nn_fin; auto. unfold bounded. now rewrite Hcan, He.
  - now apply nn_inf.
Qed.

Lemma renorm_spec x k M :
  0 < x -> mag_is x k -> is_RNE x (fexp prec emax k) M -> (0 <= M)%Z ->
  nn_result (F2R M (fexp prec emax k))
    (finish false (shr_fexp prec emax M (fexp prec emax k) loc_Exact)).
Proof.
  intros Hx Hk HM HM0. remember (fexp prec emax k) as c eqn:Hcdef.
  destruct (Z.eq_dec M 0) as [->|Hne].
  - unfold shr_fexp. simpl Zdigits2.
    assert (Hn : (fexp prec emax (0 + c) - c <= 0)%Z) by fexp_lia.
    destruct (fexp prec emax (0 + c) - c)%Z eqn:En; try lia; simpl;
      apply nn_zero; unfold F2R; lra.
  - assert (HMpos : (0 < M)%Z) by lia.
    assert (Hck : (c <= k)%Z).
    { destruct (Z_lt_le_dec k c) as [Hlt|]; [|assumption].
      pose proof (rne_zero x k c M Hk HM Hlt HM0). lia. }
    pose proof (rne_upper x k c M Hk HM Hck) as Hup.
    pose proof (Zdigits2_bounds M HMpos) as [Hd1 Hd2].
    pose proof (Zdigits2_pos M HMpos) as Hdpos.
    set (d := Zdigits2 M) in *.
    assert (Hdk : (d <= k - c + 1)%Z).
    { assert (2 ^ (d - 1) < 2 ^ (k - c + 1))%Z.
      { rewrite Z.pow_add_r by lia. lia. }
      apply Z.pow_lt_mono_r_iff in H; lia. }
    assert (Hdl : (c = k - prec -> k - c <= d)%Z).
    { intros Hcn.
      pose proof (rne_lower x k c M Hk HM ltac:(unfold prec in *; lia)) as Hlo.
      assert (2 ^ (k - 1 - c) < 2 ^ d)%Z by lia.
      apply Z.pow_lt_mono_r_iff in H; lia. }
    unfold shr_fexp. fold d.
    assert (Hn : (fexp prec emax (d + c) - c = 0
                  \/ fexp prec emax (d + c) - c = 1 /\ M = 2 ^ 53)%Z).
    { assert (Hc' : (c = k - prec
                     \/ c = SpecFloat.emin prec emax /\ k - prec < c)%Z)
        by fexp_lia.
      destruct (Z.eq_dec d (k - c + 1)) as [Hd|Hd].
      - assert (M = 2 ^ (k - c))%Z.
        { rewrite Hd in Hd1. replace (k - c + 1 - 1)%Z with (k - c)%Z in Hd1 by lia.
          lia. }
        destruct Hc' as [Hc'|[Hc' Hlt]].
        + right. split; [fexp_lia|]. rewrite H. f_equal. unfold prec in *. lia.
        + left. fexp_lia.
      - left. destruct Hc' as [Hc'|[Hc' Hlt]].
        + specialize (Hdl Hc'). fexp_lia.
        + fexp_lia. }
    destruct Hn as [Hn|[Hn HM53]].
    + rewrite Hn. simpl shr.
      apply (finish_canonical M c); auto. fold d. lia.
    + rewrite Hn. subst M.
      change (F2R (2 ^ 53) c) with (F2R (2 ^ 52 * 2 ^ 1) c).
      rewrite F2R_shift by lia.
      apply (finish_canonical (2 ^ 52) (c + 1)); auto; try lia.
      change (Zdigits2 (2 ^ 52)) with 53%Z.
      change (Zdigits2 (2 ^ 53)) with 54%Z in Hn. subst d. fexp_lia.
Qed.

(** Rounding a located positive real: the result is the nearest-even
    multiple of [2^fexp(k)], as a zero, a bounded finite float or an
    infinity. *)
Theorem binary_round_aux_spec x m e l k :
  0 < x -> locates x m e l -> (0 <= m)%Z -> mag_is x k ->
  (e <= fexp prec emax k)%Z ->
  exists M, is_RNE x (fexp prec emax k) M /\ (0 <= M)%Z
    /\ nn_result (F2R M (fexp prec emax k))
         (binary_round_aux prec emax false m e l).
Proof.
  intros Hx Hl Hm Hk He.
  rewrite binary_round_aux_eq. cbv zeta.
  destruct (shr_fexp_locates x m e l k Hx Hl Hm Hk He) as [Hloc Hsnd].
  rewrite Hsnd.
  destruct (rne_locates x _ _ Hloc) as [HM HM0].
  eexists. split; [exact HM|]. split; [exact HM0|].
  now apply (renorm_spec x k).
Qed.

End RoundAux.

Section Order.
Local Open Scope R_scope.

Lemma F2R_pow2 n c : (0 <= n)%Z -> F2R (2 ^ n) c = bpow (n + c).
Proof.
  intros H. unfold F2R. rewrite <- bpow_IZR by exact H.
  now rewrite bpow_plus.
Qed.

Lemma rne_mono_same x1 x2 c M1 M2 :
  is_RNE x1 c M1 -> is_RNE x2 c M2 -> x1 <= x2 -> (M1 <= M2)%Z.
Proof.
  intros [[L1 U1] T1] [[L2 U2] T2] Hx.
  pose proof (bpow_gt_0 c) as Hc.
  destruct (Z_le_gt_dec M1 M2) as [|Hgt]; [assumption|exfalso].
  assert (H1 : IZR M2 + 1 <= IZR M1).
  { rewrite <- plus_IZR. apply IZR_le. lia. }
  assert (Heq : IZR M1 = IZR M2 + 1) by nra.
  assert (HM : M1 = (M2 + 1)%Z).
  { apply eq_IZR. now rewrite plus_IZR. }
  assert (E1 : x1 = (IZR M1 - /2) * bpow c) by nra.
  assert (E2 : x2 = (IZR M2 + /2) * bpow c) by nra.
  specialize (T1 (or_introl E1)). specialize (T2 (or_intror E2)).
  rewrite HM, Z.even_add, T2 in T1. discriminate.
Qed.

Lemma rne_value_mono x1 x2 k1 k2 M1 M2 :
  x1 <= x2 -> mag_is x1 k1 -> mag_is x2 k2 ->
  is_RNE x1 (fexp prec emax k1) M1 -> is_RNE x2 (fexp prec emax k2) M2 ->
  (0 <= M1)%Z ->
  F2R M1 (fexp prec emax k1) <= F2R M2 (fexp prec emax k2).
Proof.
  intros Hx Hk1 Hk2 H1 H2 HM1.
  pose proof (mag_le x1 x2 k1 k2 Hk1 Hk2 Hx) as Hk.
  destruct (Z.eq_dec (fexp prec emax k1) (fexp prec emax k2)) as [Hc|Hc].
  - rewrite Hc in *. apply F2R_le. exact (rne_mono_same x1 x2 _ M1 M2 H1 H2 Hx).
  - assert (Hc2 : (fexp prec emax k2 = k2 - prec)%Z) by fexp_lia.
    assert (Hk12 : (k1 < k2)%Z).
    { destruct (Z.eq_dec k1 k2); [subst; lia|lia]. }
    apply Rle_trans with (bpow k1).
    + destruct (Z_lt_le_dec k1 (fexp prec emax k1)) as [Hlt|Hge].
      * rewrite (rne_zero x1 k1 _ M1 Hk1 H1 Hlt HM1).
        unfold F2R. pose proof (bpow_gt_0 k1). lra.
      * pose proof (rne_upper x1 k1 _ M1 Hk1 H1 Hge) as Hup.
        apply Rle_trans with (F2R (2 ^ (k1 - fexp prec emax k1)) (fexp prec emax k1)).
        -- now apply F2R_le.
        -- rewrite F2R_pow2 by lia. apply bpow_le. lia.
    + apply Rle_trans with (bpow (k2 - 1)); [apply bpow_le; lia|].
      assert (Hlo : (fexp prec emax k2 <= k2 - 1)%Z) by (unfold prec in *; lia).
      pose proof (rne_lower x2 k2 _ M2 Hk2 H2 Hlo) as Hl.
      apply Rle_trans with (F2R (2 ^ (k2 - 1 - fexp prec emax k2)) (fexp prec emax k2)).
      * rewrite F2R_pow2 by lia. apply bpow_le. lia.
      * now apply F2R_le.
Qed.

Lemma rne_exact m c M : is_RNE (F2R m c) c M -> M = m.
Proof.
  intros [[L U] _]. pose proof (bpow_gt_0 c) as Hc. unfold F2R in *.
  apply Rmult_le_reg_r in L, U; try exact Hc.
  assert (IZR M < IZR m + 1) by lra.
  assert (IZR m < IZR M + 1) by lra.
  rewrite <- plus_IZR in *. apply lt_IZR in H, H0. lia.
Qed.

Lemma nn_result_val V f : nn_result V f -> nn f /\ val f = Rmin V (bpow emax).
Proof.
  pose proof (bpow_gt_0 emax) as He.
  intros [HV|HV|m e Hb HF HV]; simpl; (split; [auto|]).
  - rewrite HV, Rmin_left; lra.
  - rewrite Rmin_right; lra.
  - rewrite Rmin_left; lra.
Qed.

Lemma rounds_to_nn x f : rounds_to x f -> nn f.
Proof. intros (k & M & _ & _ & _ & H). now apply nn_result_val in H. Qed.

Lemma rounds_to_mono x1 x2 f1 f2 :
  x1 <= x2 -> rounds_to x1 f1 -> rounds_to x2 f2 -> val f1 <= val f2.
Proof.
  intros Hx (k1 & M1 & Hk1 & H1 & HM1 & R1) (k2 & M2 & Hk2 & H2 & HM2 & R2).
  apply nn_result_val in R1, R2. destruct R1 as [_ ->], R2 as [_ ->].
  pose proof (rne_value_mono x1 x2 k1 k2 M1 M2 Hx Hk1 Hk2 H1 H2 HM1).
  apply Rle_min_compat_r. exact H.
Qed.

(** Canonical pairs of equal value are equal. *)
Lemma canonical_inj m1 e1 m2 e2 :
  canonical_mantissa prec emax m1 e1 = true ->
  canonical_mantissa prec emax m2 e2 = true ->
  F2R (Zpos m1) e1 = F2R (Zpos m2) e2 -> m1 = m2 /\ e1 = e2.
Proof.
  unfold canonical_mantissa. intros C1 C2 H.
  apply Z.eqb_eq in C1, C2.
  pose proof (F2R_mag (Zpos m1) e1 eq_refl) as M1.
  pose proof (F2R_mag (Zpos m2) e2 eq_refl) as M2.
  rewrite H in M1. pose proof (mag_unique _ _ _ M1 M2) as Hd.
  assert (He : e1 = e2).
  { simpl Zdigits2 in Hd. rewrite <- C1, <- C2. f_equal. exact Hd. }
  split; [|exact He]. subst e2.
  assert (Zpos m1 = Zpos m2); [|congruence].
  apply Z.le_antisymm; apply (F2R_le_inv _ _ e1); lra.
Qed.

Lemma canonical_lt m1 e1 m2 e2 :
  canonical_mantissa prec emax m1 e1 = true ->
  canonical_mantissa prec emax m2 e2 = true ->
  (e1 < e2)%Z -> F2R (Zpos m1) e1 < F2R (Zpos m2) e2.
Proof.
  unfold canonical_mantissa. intros C1 C2 H.
  apply Z.eqb_eq in C1, C2.
  pose proof (F2R_mag (Zpos m1) e1 eq_refl) as [_ M1].
  pose proof (F2R_mag (Zpos m2) e2 eq_refl) as [M2 _].
  eapply Rlt_le_trans; [exact M1|].
  eapply Rle_trans; [|exact M2]. apply bpow_le.
  simpl Zdigits2. fexp_lia.
Qed.

Lemma bounded_canonical m e :
  bounded prec emax m e = true -> canonical_mantissa prec emax m e = true.
Proof. unfold bounded. intros H. now apply andb_true_iff in H. Qed.

Lemma bounded_lt_emax m e :
  bounded prec emax m e = true -> F2R (Zpos m) e < bpow emax.
Proof.
  unfold bounded. intros H. apply andb_true_iff in H. destruct H as [Hc He].
  pose proof (canonical_range m e Hc) as Hr. now rewrite He in Hr.
Qed.

Lemma F2R_pos m e : 0 < F2R (Zpos m) e.
Proof.
  unfold F2R. pose proof (bpow_gt_0 e).
  assert (0 < IZR (Zpos m)) by (apply IZR_lt; lia). nra.
Qed.

Lemma nn_cases x :
  nn x ->
  (exists s, x = S754_zero s) \/ x = S754_infinity false
  \/ exists m e, x = S754_finite false m e /\ bounded prec emax m e = true.
Proof.
  destruct x as [s|s| |s m e]; simpl.
  - intros _. left. now exists s.
  - intros ->. right. now left.
  - intros [].
  - intros [-> Hb]. right. right. now exists m, e.
Qed.

Lemma val_finite m e :
  bounded prec emax m e = true ->
  0 < val (S754_finite false m e) < bpow emax.
Proof.
  intros Hb. simpl. split; [apply F2R_pos|now apply bounded_lt_emax].
Qed.

(** On non-negative floats the comparison of the code is the comparison
    of the values. *)
Lemma SFcompare_nn x y :
  nn x -> nn y ->
  match SFcompare x y with
  | Some Lt => val x < val y
  | Some Eq => val x = val y
  | Some Gt => val y < val x
  | None => False
  end.
Proof.
  pose proof (bpow_gt_0 emax) as He.
  intros Hx Hy.
  destruct (nn_cases x Hx) as [[sx ->]|[->|(mx & ex & -> & Bx)]];
    destruct (nn_cases y Hy) as [[sy ->]|[->|(my & ey & -> & By)]];
    try pose proof (val_finite mx ex Bx);
    try pose proof (val_finite my ey By);
    try (simpl in *; lra).
  simpl. clear H H0.
  apply bounded_canonical in Bx, By.
  destruct (Z.compare_spec ex ey) as [Heq|Hlt|Hgt].
  - subst ey. rewrite Pos.compare_cont_spec. simpl.
    pose proof (bpow_gt_0 ex) as Hb. unfold F2R.
    destruct (Pos.compare_spec mx my) as [E|L|G]; simpl.
    + now subst.
    + apply Rmult_lt_compat_r; [exact Hb|]. apply IZR_lt. lia.
    + apply Rmult_lt_compat_r; [exact Hb|]. apply IZR_lt. lia.
  - now apply canonical_lt.
  - now apply canonical_lt.
Qed.

Lemma rounds_to_self m e :
  bounded prec emax m e = true ->
  rounds_to (F2R (Zpos m) e) (S754_finite false m e).
Proof.
  intros Hb. pose proof (bounded_canonical m e Hb) as Hc.
  unfold canonical_mantissa in Hc. apply Z.eqb_eq in Hc.
  exists (Zpos (digits2_pos m) + e)%Z, (Zpos m).
  rewrite Hc. pose proof (bpow_gt_0 e) as He. repeat split.
  - apply (F2R_mag (Zpos m) e eq_refl).
  - apply (F2R_mag (Zpos m) e eq_refl).
  - unfold F2R. nra.
  - unfold F2R. nra.
  - intros [E|E]; unfold F2R in E; nra.
  - lia.
  - apply nn_fin; auto. now apply bounded_lt_emax.
Qed.

Lemma rounds_to_exact m e f :
  bounded prec emax m e = true ->
  rounds_to (F2R (Zpos m) e) f -> f = S754_finite false m e.
Proof.
  intros Hb (k & M & Hk & HM & HM0 & Hr).
  pose proof (bounded_canonical m e Hb) as Hc.
  pose proof Hc as Hc'. unfold canonical_mantissa in Hc'. apply Z.eqb_eq in Hc'.
  pose proof (mag_unique _ _ _ Hk (F2R_mag (Zpos m) e eq_refl)) as ->.
  simpl Zdigits2 in *. rewrite Hc' in *.
  apply rne_exact in HM. subst M.
  pose proof (F2R_pos m e) as Hp. pose proof (bounded_lt_emax m e Hb) as Hlt.
  destruct Hr as [HV|HV|m' e' Hb' HF HV]; try lra.
  apply bounded_canonical in Hb'.
  destruct (canonical_inj m' e' m e Hb' Hc HF) as [-> ->]. reflexivity.
Qed.

End Order.

Section Division.
Local Open Scope R_scope.

Lemma new_location_spec nb r :
  (0 <= r < nb)%Z ->
  new_location nb r
  = if (r =? 0)%Z then loc_Exact else loc_Inexact (2 * r ?= nb)%Z.
Proof.
  intros H. unfold new_location, new_location_even, new_location_odd.
  destruct r as [|p|p]; try lia.
  - now destruct (Z.even nb).
  - change (Z.pos p =? 0)%Z with false. cbv iota.
    destruct (Z.even nb) eqn:Ev; [reflexivity|].
    f_equal.
    assert (Hodd : Z.odd nb = true) by (rewrite <- Z.negb_even, Ev; reflexivity).
    apply Z.odd_spec in Hodd. destruct Hodd as [j Hj].
    change (IntDef.Z.compare) with Z.compare.
    change (IntDef.Z.mul) with Z.mul. change (IntDef.Z.add) with Z.add.
    destruct (Z.compare_spec (2 * Z.pos p + 1) nb),
             (Z.compare_spec (2 * Z.pos p) nb);
      try reflexivity; lia.
Qed.

(** The quotient of two positive integers scaled by powers of two, as the
    division of the code locates it. *)
Lemma div_core_locates m1 e1 m2 e2 q e' l :
  (0 < m1)%Z -> (0 < m2)%Z ->
  SFdiv_core_binary prec emax m1 e1 m2 e2 = (q, e', l) ->
  locates (F2R m1 e1 / F2R m2 e2) q e' l /\ (0 <= q)%Z
  /\ forall k, mag_is (F2R m1 e1 / F2R m2 e2) k -> (e' <= fexp prec emax k)%Z.
Proof.
  intros H1 H2. unfold SFdiv_core_binary.
  set (k0 := (Zdigits2 m1 + e1 - (Zdigits2 m2 + e2))%Z).
  set (e0 := Z.min (fexp prec emax k0) (e1 - e2)).
  set (s := (e1 - e2 - e0)%Z).
  assert (Hs : (0 <= s)%Z) by (unfold s, e0; lia).
  assert (Hm' : match s with
                | Zpos _ => Z.shiftl m1 s
                | Z0 => m1
                | Zneg _ => 0%Z
                end = (m1 * 2 ^ s)%Z).
  { clearbody s. destruct s as [|p|p]; try lia.
    now rewrite Z.shiftl_mul_pow2 by lia. }
  rewrite Hm'.
  pose proof (Z_div_mod (m1 * 2 ^ s) m2 ltac:(lia)) as Hdiv.
  destruct (Z.div_eucl (m1 * 2 ^ s) m2) as [q0 r0].
  destruct Hdiv as [Hqr Hr].
  intros Heq. inversion Heq. subst q0 e' l. clear Heq.
  pose proof (bpow_gt_0 e0) as Hb0.
  pose proof (bpow_gt_0 e2) as Hb2.
  assert (Hm2 : 0 < IZR m2) by (apply IZR_lt; lia).
  assert (Hx : F2R m1 e1 / F2R m2 e2 = (IZR q + IZR r0 / IZR m2) * bpow e0).
  { assert (E : F2R m1 e1 = F2R (m1 * 2 ^ s) (e0 + e2)).
    { rewrite F2R_shift by lia. f_equal. unfold s. lia. }
    rewrite E, Hqr. unfold F2R. rewrite bpow_plus, plus_IZR, mult_IZR.
    field. lra. }
  assert (Hq : (0 <= q)%Z).
  { assert (0 <= m1 * 2 ^ s)%Z by (pose proof (Z.pow_pos_nonneg 2 s); nia).
    nia. }
  split; [|split; [exact Hq|]].
  - rewrite Hx, new_location_spec by exact Hr.
    assert (Hr0 : 0 <= IZR r0 < IZR m2).
    { split; [apply IZR_le|apply IZR_lt]; lia. }
    unfold locates, F2R.
    destruct (Z.eqb_spec r0 0) as [->|Hne].
    + field. lra.
    + assert (0 < IZR r0).
      { apply IZR_lt. lia. }
      assert (Hfrac : 0 < IZR r0 / IZR m2 < 1).
      { split; [apply Rdiv_lt_0_compat; lra|].
        apply Rmult_lt_reg_r with (IZR m2); [lra|]. field_simplify; lra. }
      set (t := IZR r0 / IZR m2) in *.
      rewrite plus_IZR.
      destruct (Z.compare_spec (2 * r0) m2) as [E|L|G].
      * assert (t = /2).
        { unfold t. apply eq_IZR in E || idtac.
          assert (IZR m2 = 2 * IZR r0) by (rewrite <- E, mult_IZR; reflexivity).
          rewrite H0. field. lra. }
        rewrite H0. reflexivity.
      * assert (t < /2).
        { unfold t. apply IZR_lt in L. rewrite mult_IZR in L.
          apply Rmult_lt_reg_r with (IZR m2); [lra|]. field_simplify; lra. }
        split; nra.
      * assert (/2 < t).
        { unfold t. apply IZR_lt in G. rewrite mult_IZR in G.
          apply Rmult_lt_reg_r with (IZR m2); [lra|]. field_simplify; lra. }
        split; nra.
  - intros k Hk.
    assert (Hk0 : (k0 <= k)%Z).
    { destruct Hk as [_ Hk].
      pose proof (F2R_mag m1 e1 H1) as [L1 _].
      pose proof (F2R_mag m2 e2 H2) as [_ U2].
      assert (0 < F2R m2 e2).
      { unfold F2R. nra. }
      assert (bpow (k0 - 1) < F2R m1 e1 / F2R m2 e2).
      { apply Rmult_lt_reg_r with (F2R m2 e2); [assumption|].
        replace (F2R m1 e1 / F2R m2 e2 * F2R m2 e2) with (F2R m1 e1)
          by (field; lra).
        apply Rlt_le_trans with (bpow (k0 - 1) * bpow (Zdigits2 m2 + e2)).
        - apply Rmult_lt_compat_l; [apply bpow_gt_0|exact U2].
        - rewrite <- bpow_plus.
          replace (k0 - 1 + (Zdigits2 m2 + e2))%Z
            with (Zdigits2 m1 + e1 - 1)%Z by (unfold k0; lia).
          exact L1. }
      assert (bpow (k0 - 1) < bpow k) by lra.
      apply bpow_lt_inv in H3. lia. }
    unfold e0. fexp_lia.
Qed.

(** A positive quotient has a magnitude. *)
Lemma mag_exists_between x k0 :
  bpow (k0 - 1) < x < bpow (k0 + 1) -> exists k, mag_is x k.
Proof.
  intros [L U]. destruct (Rlt_le_dec x (bpow k0)) as [Hlt|Hge].
  - exists k0. split; lra.
  - exists (k0 + 1)%Z. unfold mag_is.
    replace (k0 + 1 - 1)%Z with k0 by lia. split; lra.
Qed.

Lemma mag_exists_F2R m e : (0 < m)%Z -> exists k, mag_is (F2R m e) k.
Proof. intros H. eexists. now apply F2R_mag. Qed.

Lemma mag_exists_div m1 e1 m2 e2 :
  (0 < m1)%Z -> (0 < m2)%Z -> exists k, mag_is (F2R m1 e1 / F2R m2 e2) k.
Proof.
  intros H1 H2.
  pose proof (F2R_mag m1 e1 H1) as [L1 U1].
  pose proof (F2R_mag m2 e2 H2) as [L2 U2].
  pose proof (bpow_gt_0 (Zdigits2 m2 + e2 - 1)) as Hb.
  assert (Hp2 : 0 < F2R m2 e2) by lra.
  apply (mag_exists_between _ (Zdigits2 m1 + e1 - (Zdigits2 m2 + e2))).
  split.
  - apply Rmult_lt_reg_r with (F2R m2 e2); [assumption|].
    replace (F2R m1 e1 / F2R m2 e2 * F2R m2 e2) with (F2R m1 e1)
      by (field; lra).
    eapply Rlt_le_trans; [|exact L1].
    eapply Rlt_le_trans;
      [apply Rmult_lt_compat_l; [apply bpow_gt_0|exact U2]|].
    rewrite <- bpow_plus. apply bpow_le. lia.
  - apply Rmult_lt_reg_r with (F2R m2 e2); [assumption|].
    replace (F2R m1 e1 / F2R m2 e2 * F2R m2 e2) with (F2R m1 e1)
      by (field; lra).
    eapply Rlt_le_trans; [exact U1|].
    eapply Rle_trans;
      [|apply Rmult_le_compat_l; [apply Rlt_le, bpow_gt_0|exact L2]].
    rewrite <- bpow_plus. apply bpow_le. lia.
Qed.

Lemma div_pos m1 e1 m2 e2 :
  (0 < m1)%Z -> (0 < m2)%Z -> 0 < F2R m1 e1 / F2R m2 e2.
Proof.
  intros H1 H2. apply Rdiv_lt_0_compat.
  - pose proof (F2R_mag m1 e1 H1) as [L _].
    pose proof (bpow_gt_0 (Zdigits2 m1 + e1 - 1)). lra.
  - pose proof (F2R_mag m2 e2 H2) as [L _].
    pose proof (bpow_gt_0 (Zdigits2 m2 + e2 - 1)). lra.
Qed.

Lemma div_core_rounds m1 e1 m2 e2 :
  (0 < m1)%Z -> (0 < m2)%Z ->
  rounds_to (F2R m1 e1 / F2R m2 e2)
    (let '(q, e, l) := SFdiv_core_binary prec emax m1 e1 m2 e2 in
     binary_round_aux prec emax false q e l).
Proof.
  intros H1 H2.
  destruct (SFdiv_core_binary prec emax m1 e1 m2 e2) as [[q e] l] eqn:Hd.
  destruct (div_core_locates m1 e1 m2 e2 q e l H1 H2 Hd) as (Hl & Hq & Hf).
  destruct (mag_exists_div m1 e1 m2 e2 H1 H2) as [k Hk].
  destruct (binary_round_aux_spec _ q e l k (div_pos m1 e1 m2 e2 H1 H2)
              Hl Hq Hk (Hf k Hk)) as (M & HM & HM0 & Hr).
  now exists k, M.
Qed.

Lemma SFdiv_rounds m1 e1 m2 e2 :
  rounds_to (F2R (Zpos m1) e1 / F2R (Zpos m2) e2)
    (SFdiv prec emax (S754_finite false m1 e1) (S754_finite false m2 e2)).
Proof. apply (div_core_rounds (Zpos m1) e1 (Zpos m2) e2); reflexivity. Qed.

End Division.

Section Multiplication.
Local Open Scope R_scope.

Lemma exact_rounds m e :
  (0 < m)%Z -> (e <= fexp prec emax (Zdigits2 m + e))%Z ->
  rounds_to (F2R m e) (binary_round_aux prec emax false m e loc_Exact).
Proof.
  intros Hm He.
  pose proof (F2R_mag m e Hm) as Hk.
  assert (Hx : 0 < F2R m e).
  { destruct Hk as [L _]. pose proof (bpow_gt_0 (Zdigits2 m + e - 1)). lra. }
  destruct (binary_round_aux_spec (F2R m e) m e loc_Exact _ Hx
              eq_refl ltac:(lia) Hk He) as (M & HM & HM0 & Hr).
  now exists (Zdigits2 m + e)%Z, M.
Qed.

Lemma Zdigits2_mul_lower a b :
  (0 < a)%Z -> (0 < b)%Z -> (Zdigits2 a + Zdigits2 b - 1 <= Zdigits2 (a * b))%Z.
Proof.
  intros Ha Hb.
  pose proof (Zdigits2_bounds a Ha) as [La _].
  pose proof (Zdigits2_bounds b Hb) as [Lb _].
  pose proof (Zdigits2_pos a Ha). pose proof (Zdigits2_pos b Hb).
  assert (Hab : (0 < a * b)%Z) by nia.
  pose proof (Zdigits2_bounds (a * b) Hab) as [_ U].
  assert (2 ^ (Zdigits2 a - 1 + (Zdigits2 b - 1)) < 2 ^ Zdigits2 (a * b))%Z.
  { rewrite Z.pow_add_r by lia.
    pose proof (Z.pow_pos_nonneg 2 (Zdigits2 a - 1)).
    pose proof (Z.pow_pos_nonneg 2 (Zdigits2 b - 1)). nia. }
  apply Z.pow_lt_mono_r_iff in H1; try lia.
  pose proof (Zdigits2_pos (a * b) Hab). lia.
Qed.

Lemma SFmul_rounds m1 e1 m2 e2 :
  bounded prec emax m1 e1 = true -> bounded prec emax m2 e2 = true ->
  rounds_to (F2R (Zpos m1) e1 * F2R (Zpos m2) e2)
    (SFmul prec emax (S754_finite false m1 e1) (S754_finite false m2 e2)).
Proof.
  intros B1 B2. simpl.
  replace (F2R (Zpos m1) e1 * F2R (Zpos m2) e2)
    with (F2R (Zpos (m1 * m2)) (e1 + e2)).
  2:{ unfold F2R. rewrite Pos2Z.inj_mul, mult_IZR, bpow_plus. ring. }
  apply exact_rounds; [reflexivity|].
  apply bounded_canonical in B1, B2. unfold canonical_mantissa in *.
  apply Z.eqb_eq in B1, B2.
  pose proof (Zdigits2_mul_lower (Zpos m1) (Zpos m2) eq_refl eq_refl) as Hd.
  change (Zpos m1 * Zpos m2)%Z with (Zpos (m1 * m2)) in Hd.
  simpl Zdigits2 in *. fexp_lia.
Qed.

End Multiplication.

Section Addition.
Local Open Scope R_scope.

Lemma iter_xO m d : Zpos (Pos.iter xO m d) = (Zpos m * 2 ^ Zpos d)%Z.
Proof.
  induction d as [|d IH] using Pos.peano_ind.
  - simpl. lia.
  - rewrite Pos.iter_succ, Pos2Z.inj_succ, Z.pow_succ_r by lia.
    rewrite Pos2Z.inj_xO, IH. lia.
Qed.

Lemma shl_align_spec m e e' :
  F2R (Zpos (fst (shl_align m e e'))) (snd (shl_align m e e')) = F2R (Zpos m) e
  /\ snd (shl_align m e e') = Z.min e e'.
Proof.
  unfold shl_align. destruct (e' - e)%Z as [|d|d] eqn:Hd; simpl.
  - split; [reflexivity|lia].
  - split; [reflexivity|lia].
  - split; [|lia]. rewrite iter_xO, F2R_shift by lia. f_equal. lia.
Qed.

Lemma binary_round_rounds m e :
  rounds_to (F2R (Zpos m) e) (binary_round prec emax false m e).
Proof.
  unfold binary_round.
  pose proof (shl_align_spec m e (fexp prec emax (Zpos (digits2_pos m) + e)))
    as [Hv He].
  destruct (shl_align m e _) as [mz ez]. cbn [fst snd] in Hv, He.
  rewrite <- Hv. apply exact_rounds; [reflexivity|].
  pose proof (F2R_mag (Zpos mz) ez eq_refl) as M1.
  pose proof (F2R_mag (Zpos m) e eq_refl) as M2.
  rewrite Hv in M1. rewrite (mag_unique _ _ _ M1 M2).
  simpl Zdigits2. lia.
Qed.

Lemma SFadd_rounds m1 e1 m2 e2 :
  rounds_to (F2R (Zpos m1) e1 + F2R (Zpos m2) e2)
    (SFadd prec emax (S754_finite false m1 e1) (S754_finite false m2 e2)).
Proof.
  unfold SFadd. cbv zeta.
  pose proof (shl_align_spec m1 e1 (Z.min e1 e2)) as [V1 E1].
  pose proof (shl_align_spec m2 e2 (Z.min e1 e2)) as [V2 E2].
  rewrite <- V1, <- V2, E1, E2.
  replace (Z.min e1 (Z.min e1 e2)) with (Z.min e1 e2) by lia.
  replace (Z.min e2 (Z.min e1 e2)) with (Z.min e1 e2) by lia.
  simpl cond_Zopp.
  set (a := fst (shl_align m1 e1 (Z.min e1 e2))).
  set (b := fst (shl_align m2 e2 (Z.min e1 e2))).
  change (Zpos a + Zpos b)%Z with (Zpos (a + b)). simpl binary_normalize.
  replace (F2R (Zpos a) (Z.min e1 e2) + F2R (Zpos b) (Z.min e1 e2))
    with (F2R (Zpos (a + b)) (Z.min e1 e2)).
  - apply binary_round_rounds.
  - unfold F2R. rewrite Pos2Z.inj_add, plus_IZR. ring.
Qed.

End Addition.

Section Truncation.
Local Open Scope R_scope.

Lemma nn_val_bounds x : nn x -> 0 <= val x <= bpow emax.
Proof.
  pose proof (bpow_gt_0 emax) as He. intros Hx.
  destruct (nn_cases x Hx) as [[sx ->]|[->|(mx & ex & -> & Bx)]].
  - simpl. lra.
  - simpl. lra.
  - pose proof (val_finite mx ex Bx). lra.
Qed.

Lemma hundred_bounded :
  bounded prec emax 7036874417766400 (-46) = true.
Proof. reflexivity. Qed.

Lemma val_hundred : val hundred = 100.
Proof.
  change (val hundred) with (F2R (25 * 2 ^ 48) (-46)).
  rewrite F2R_shift by lia. change (-46 + 48)%Z with (0 + 1 + 1)%Z.
  unfold F2R. rewrite !bpow_succ, bpow_0. lra.
Qed.

Lemma hundred_lt_emax : 100 < bpow emax.
Proof.
  rewrite <- val_hundred. apply (val_finite _ _ hundred_bounded).
Qed.

(** [trunc] is the integer part of the value. *)
Lemma trunc_spec x :
  nn x -> x <> S754_infinity false ->
  IZR (trunc x) <= val x < IZR (trunc x) + 1.
Proof.
  intros Hx Hinf.
  destruct (nn_cases x Hx) as [[sx ->]|[->|(m & e & -> & _)]];
    [simpl; lra|congruence|].
  simpl val. simpl cond_Zopp. unfold trunc.
  destruct e as [|p|p].
  - rewrite Z.shiftl_0_r. unfold F2R. rewrite bpow_0. lra.
  - rewrite Z.shiftl_mul_pow2 by lia.
    replace (F2R (Zpos m) (Zpos p)) with (F2R (Zpos m * 2 ^ Zpos p) 0)
      by (rewrite F2R_shift by lia; reflexivity).
    unfold F2R. rewrite bpow_0. lra.
  - rewrite Z.shiftr_div_pow2 by lia.
    pose proof (Z.pow_pos_nonneg 2 (Zpos p) ltac:(lia) ltac:(lia)) as Hp.
    pose proof (Z_div_mod_eq_full (Zpos m) (2 ^ Zpos p)) as Hdm.
    pose proof (Z.mod_pos_bound (Zpos m) (2 ^ Zpos p) Hp) as Hr.
    set (q := (Zpos m / 2 ^ Zpos p)%Z) in *.
    set (r := (Zpos m mod 2 ^ Zpos p)%Z) in *.
    assert (Hb : bpow (Zneg p) * IZR (2 ^ Zpos p) = 1).
    { rewrite <- bpow_IZR, <- bpow_plus by lia.
      replace (Zneg p + Zpos p)%Z with 0%Z by lia. apply bpow_0. }
    pose proof (bpow_gt_0 (Zneg p)) as Hb0.
    assert (Hp' : 0 < IZR (2 ^ Zpos p)) by (apply IZR_lt; lia).
    unfold F2R. rewrite Hdm, plus_IZR, mult_IZR.
    assert (Hr' : 0 <= IZR r < IZR (2 ^ Zpos p)).
    { split; [apply IZR_le|apply IZR_lt]; lia. }
    set (b := bpow (Zneg p)) in *. set (t := IZR (2 ^ Zpos p)) in *.
    replace ((t * IZR q + IZR r) * b) with (IZR q * (b * t) + IZR r * b) by ring.
    rewrite Hb.
    assert (0 <= IZR r * b) by nra.
    assert (IZR r * b < 1) by nra.
    lra.
Qed.

Lemma trunc_mono x y :
  nn x -> nn y -> x <> S754_infinity false -> y <> S754_infinity false ->
  val x <= val y -> (trunc x <= trunc y)%Z.
Proof.
  intros Hx Hy Ix Iy Hv.
  pose proof (trunc_spec x Hx Ix). pose proof (trunc_spec y Hy Iy).
  assert (IZR (trunc x) < IZR (trunc y + 1)) by (rewrite plus_IZR; lra).
  apply lt_IZR in H1. lia.
Qed.

(** [min(x, 100)] on a non-negative float. *)
Lemma min_100_spec y :
  nn y ->
  nn (min_100 y) /\ min_100 y <> S754_infinity false
  /\ val (min_100 y) = Rmin (val y) 100.
Proof.
  intros Hy. unfold min_100, flt, SFltb.
  assert (Hh : nn hundred) by (split; reflexivity).
  pose proof (SFcompare_nn hundred y Hh Hy) as Hc.
  pose proof hundred_lt_emax as Hlt.
  rewrite val_hundred in Hc.
  destruct (SFcompare hundred y) as [[]|]; try contradiction.
  - repeat split; auto.
    + intros ->. simpl in Hc. lra.
    + rewrite Rmin_left; lra.
  - repeat split; auto; try discriminate.
    rewrite val_hundred, Rmin_right; lra.
  - repeat split; auto.
    + intros ->. simpl in Hc. lra.
    + rewrite Rmin_left; lra.
Qed.

End Truncation.

(** An operation that rounds an increasing function of its argument keeps
    the order of the non-negative floats. *)
Section Monotone.
Local Open Scope R_scope.

Variable op : float -> float.
Variable g : R -> R.

Hypothesis op_zero : forall s, exists s', op (S754_zero s) = S754_zero s'.
Hypothesis op_inf : op (S754_infinity false) = S754_infinity false.
Hypothesis op_fin : forall m e,
  bounded prec emax m e = true ->
  rounds_to (g (F2R (Zpos m) e)) (op (S754_finite false m e)).
Hypothesis g_mono : forall a b, 0 < a -> a <= b -> g a <= g b.

Lemma op_nn x : nn x -> nn (op x).
Proof.
  intros Hx.
  destruct (nn_cases x Hx) as [[sx ->]|[->|(m & e & -> & B)]].
  - destruct (op_zero sx) as [s' ->]. exact I.
  - rewrite op_inf. reflexivity.
  - exact (rounds_to_nn _ _ (op_fin m e B)).
Qed.

Lemma op_mono x y :
  nn x -> nn y -> val x <= val y -> val (op x) <= val (op y).
Proof.
  intros Hx Hy Hv.
  pose proof (nn_val_bounds _ (op_nn x Hx)) as Bx.
  pose proof (nn_val_bounds _ (op_nn y Hy)) as By.
  pose proof (bpow_gt_0 emax) as He.
  destruct (nn_cases x Hx) as [[sx ->]|[->|(mx & ex & -> & Hbx)]].
  - destruct (op_zero sx) as [s' E]. rewrite E in *. simpl. lra.
  - destruct (nn_cases y Hy) as [[sy ->]|[->|(my & ey & -> & Hby)]].
    + simpl in Hv. lra.
    + lra.
    + pose proof (val_finite my ey Hby). simpl in Hv, H. lra.
  - pose proof (val_finite mx ex Hbx) as Vx.
    destruct (nn_cases y Hy) as [[sy ->]|[->|(my & ey & -> & Hby)]].
    + simpl in Hv, Vx. lra.
    + rewrite op_inf. simpl. lra.
    + apply (rounds_to_mono (g (F2R (Zpos mx) ex)) (g (F2R (Zpos my) ey))).
      * apply g_mono; [apply F2R_pos|exact Hv].
      * now apply op_fin.
      * now apply op_fin.
Qed.

End Monotone.

Section Percent.
Local Open Scope R_scope.

Variables (mD : positive) (eD : Z).
Local Abbreviation D := (S754_finite false mD eD).

Lemma div_nn E : nn E -> nn (SFdiv prec emax E D).
Proof.
  apply (op_nn (fun E => SFdiv prec emax E D) (fun v => v / F2R (Zpos mD) eD)).
  - intros s. now exists (xorb s false).
  - reflexivity.
  - intros m e _. apply SFdiv_rounds.
Qed.

Lemma div_mono E1 E2 :
  nn E1 -> nn E2 -> val E1 <= val E2 ->
  val (SFdiv prec emax E1 D) <= val (SFdiv prec emax E2 D).
Proof.
  apply (op_mono (fun E => SFdiv prec emax E D) (fun v => v / F2R (Zpos mD) eD)).
  - intros s. now exists (xorb s false).
  - reflexivity.
  - intros m e _. apply SFdiv_rounds.
  - intros a b Ha Hab. pose proof (F2R_pos mD eD).
    apply Rmult_le_compat_r; [|exact Hab].
    apply Rlt_le, Rinv_0_lt_compat. assumption.
Qed.

Lemma mul_hundred_rounds m e :
  bounded prec emax m e = true ->
  rounds_to (F2R (Zpos m) e * 100) (fmul (S754_finite false m e) hundred).
Proof.
  intros B. rewrite <- val_hundred. apply SFmul_rounds; [exact B|reflexivity].
Qed.

Lemma mul_hundred_nn x : nn x -> nn (fmul x hundred).
Proof.
  apply (op_nn (fun x => fmul x hundred) (fun v => v * 100)).
  - intros s. now exists (xorb s false).
  - reflexivity.
  - apply mul_hundred_rounds.
Qed.

Lemma mul_hundred_mono x y :
  nn x -> nn y -> val x <= val y ->
  val (fmul x hundred) <= val (fmul y hundred).
Proof.
  apply (op_mono (fun x => fmul x hundred) (fun v => v * 100)).
  - intros s. now exists (xorb s false).
  - reflexivity.
  - apply mul_hundred_rounds.
  - intros a b _ Hab. lra.
Qed.

Lemma percent_pct E : Progress.percent E D = ret (pct D E).
Proof. reflexivity. Qed.

Lemma pct_nn E : nn E -> nn (pct D E) /\ pct D E <> S754_infinity false.
Proof.
  intros HE. unfold pct.
  destruct (min_100_spec _ (mul_hundred_nn _ (div_nn E HE))) as (H1 & H2 & _).
  now split.
Qed.

Lemma pct_to_int E : nn E -> to_int (pct D E) = ret (trunc (pct D E)).
Proof.
  intros HE. destruct (pct_nn E HE) as [Hn Hi].
  destruct (pct D E) as [s|s| |s m e]; simpl in *; try reflexivity.
  - subst s. congruence.
  - contradiction.
Qed.

Lemma pct_mono E1 E2 :
  nn E1 -> nn E2 -> val E1 <= val E2 ->
  (trunc (pct D E1) <= trunc (pct D E2))%Z.
Proof.
  intros H1 H2 Hv.
  destruct (pct_nn E1 H1) as [N1 I1]. destruct (pct_nn E2 H2) as [N2 I2].
  apply trunc_mono; auto. unfold pct.
  destruct (min_100_spec _ (mul_hundred_nn _ (div_nn E1 H1))) as (_ & _ & ->).
  destruct (min_100_spec _ (mul_hundred_nn _ (div_nn E2 H2))) as (_ & _ & ->).
  apply Rle_min_compat_r.
  apply mul_hundred_mono; try apply div_nn; auto.
  now apply div_mono.
Qed.

End Percent.

End Round.

(** ** The percent *)

Section PercentFacts.

Import PyFloat Progress Spec Real Round.
Local Open Scope R_scope.

Lemma positive_finite_iff (D : float) :
  positive_finite D = true
  <-> flt zero D = true /\ D <> S754_infinity false.
Proof.
  destruct D as [s|[]| |[] m e]; simpl; unfold flt, SFltb; simpl;
    intuition (discriminate || congruence).
Qed.

Lemma valid_nn (x : float) :
  valid_binary prec emax x = true -> SFleb zero x = true -> nn x.
Proof.
  destruct x as [s|[]| |[] m e]; simpl; unfold SFleb; simpl;
    intros Hv Hc; try discriminate; auto.
Qed.

Lemma one_bounded : bounded prec emax 4503599627370496 (-52) = true.
Proof. reflexivity. Qed.

Lemma F2R_one : F2R 4503599627370496 (-52) = 1.
Proof.
  change (F2R 4503599627370496 (-52)) with (F2R (1 * 2 ^ 52) (-52)).
  rewrite F2R_shift by lia. unfold F2R. change (-52 + 52)%Z with 0%Z.
  rewrite bpow_0. lra.
Qed.

(** A quotient above 1 rounds to at least 1, and 100 times a float that is
    at least 1 rounds to at least 100. *)
Lemma rounds_ge (x : R) (f : float) (m : positive) (e : Z) :
  bounded prec emax m e = true -> F2R (Zpos m) e <= x -> rounds_to x f ->
  nn f /\ F2R (Zpos m) e <= val f.
Proof.
  intros B Hx Hr. split; [exact (rounds_to_nn _ _ Hr)|].
  exact (rounds_to_mono _ _ _ _ Hx (rounds_to_self m e B) Hr).
Qed.

Lemma min_100_ge (y : float) : nn y -> 100 <= val y -> min_100 y = hundred.
Proof.
  intros Hy Hv. unfold min_100, flt, SFltb.
  assert (Hh : nn hundred) by (split; reflexivity).
  pose proof (SFcompare_nn hundred y Hh Hy) as Hc.
  rewrite val_hundred in Hc.
  destruct (SFcompare hundred y) as [[]|]; try contradiction; try reflexivity;
    try lra.
  pose proof hundred_lt_emax as Hlt.
  destruct (nn_cases y Hy) as [[sy ->]|[->|(my & ey & -> & By)]].
  - simpl in Hc. lra.
  - simpl in Hc. lra.
  - simpl in Hc.
    destruct (canonical_inj _ _ _ _ (bounded_canonical _ _ By)
                (bounded_canonical _ _ hundred_bounded)) as [-> ->].
    + change (F2R 7036874417766400 (-46)) with (val hundred).
      rewrite val_hundred. lra.
    + reflexivity.
Qed.

(** C2. For every positive duration [D] and elapsed time [E], both
    binary64 numbers: when [0 <= E <= D] the percent is
    [clamp(E / D * 100, 0, 100)], the quotient and the product being the
    rounded ones of the code, and it lies between 0 and 100; when [E > D],
    an infinite [E] included, the percent is exactly 100. *)
Theorem C2_percent (D E : float) :
  positive_finite D = true ->
  valid_binary prec emax D = true -> valid_binary prec emax E = true ->
  (SFleb zero E = true -> SFleb E D = true ->
     percent E D = ret (clamp_0_100 (fmul (SFdiv prec emax E D) hundred))
     /\ 0 <= val (clamp_0_100 (fmul (SFdiv prec emax E D) hundred)) <= 100)
  /\ (flt D E = true -> percent E D = ret hundred).
Proof.
  intros HD VD VE.
  destruct D as [s|s| |[] mD eD]; try discriminate. clear HD.
  simpl in VD. split.
  - intros H0 HED. pose proof (valid_nn E VE H0) as HE.
    pose proof (mul_hundred_nn _ (div_nn mD eD E HE)) as Hx.
    set (x := fmul (SFdiv prec emax E (S754_finite false mD eD)) hundred) in *.
    assert (Hc : clamp_0_100 x = min_100 x).
    { unfold clamp_0_100, flt, SFltb.
      pose proof (SFcompare_nn x zero Hx I) as Hc.
      pose proof (nn_val_bounds x Hx) as Hb.
      destruct (SFcompare x zero) as [[]|]; try contradiction; try reflexivity.
      simpl in Hc. lra. }
    rewrite Hc. split; [reflexivity|].
    destruct (min_100_spec x Hx) as (_ & _ & ->).
    pose proof (nn_val_bounds x Hx) as Hb.
    unfold Rmin. destruct (Rle_dec (val x) 100); lra.
  - intros HDE. rewrite (percent_pct mD eD). f_equal. unfold pct.
    assert (HnD : nn (S754_finite false mD eD)) by (split; [reflexivity|exact VD]).
    assert (HE : nn E /\ val (S754_finite false mD eD) < val E).
    { unfold flt, SFltb in HDE.
      destruct E as [s|[]| |[] m e]; try discriminate HDE.
      - split; [reflexivity|]. apply (val_finite mD eD VD).
      - assert (nn (S754_finite false m e)) by (split; [reflexivity|exact VE]).
        split; [assumption|].
        pose proof (SFcompare_nn _ _ HnD H) as Hc.
        destruct (SFcompare (S754_finite false mD eD) (S754_finite false m e))
          as [[]|]; try discriminate. exact Hc. }
    destruct HE as [HE Hlt].
    destruct (nn_cases E HE) as [[sE ->]|[->|(mE & eE & -> & BE)]].
    + pose proof (val_finite mD eD VD). simpl in Hlt, H. lra.
    + reflexivity.
    + simpl in Hlt.
      pose proof (F2R_pos mD eD) as HpD.
      assert (H1 : F2R 4503599627370496 (-52)
                   <= F2R (Zpos mE) eE / F2R (Zpos mD) eD).
      { rewrite F2R_one.
        apply Rmult_le_reg_r with (F2R (Zpos mD) eD); [exact HpD|].
        replace (F2R (Zpos mE) eE / F2R (Zpos mD) eD * F2R (Zpos mD) eD)
          with (F2R (Zpos mE) eE) by (field; lra).
        lra. }
      destruct (rounds_ge _ _ _ _ one_bounded H1 (SFdiv_rounds mE eE mD eD))
        as [Hq Hq1].
      rewrite F2R_one in Hq1.
      set (q := SFdiv prec emax (S754_finite false mE eE)
                  (S754_finite false mD eD)) in *.
      apply min_100_ge; [now apply mul_hundred_nn|].
      destruct (nn_cases q Hq) as [[sq Eq]|[Eq|(mq & eq & Eq & Bq)]];
        rewrite Eq in *.
      * simpl in Hq1. lra.
      * simpl. pose proof hundred_lt_emax. lra.
      * simpl in Hq1.
        assert (H2 : F2R 7036874417766400 (-46) <= F2R (Zpos mq) eq * 100).
        { change (F2R 7036874417766400 (-46)) with (val hundred).
          rewrite val_hundred. lra. }
        destruct (rounds_ge _ _ _ _ hundred_bounded H2
                    (mul_hundred_rounds mq eq Bq)) as [_ Hy].
        change (F2R 7036874417766400 (-46)) with (val hundred) in Hy.
        now rewrite val_hundred in Hy.
Qed.

Lemma C2_percent_witness :
  (percent (of_Z 3) (of_Z 7)
     = ret (clamp_0_100 (fmul (SFdiv prec emax (of_Z 3) (of_Z 7)) hundred))
   /\ 0 <= val (clamp_0_100
                  (fmul (SFdiv prec emax (of_Z 3) (of_Z 7)) hundred)) <= 100)
  /\ percent (of_Z 9) (of_Z 7) = ret hundred.
Proof.
  split.
  - apply (C2_percent (of_Z 7) (of_Z 3)); reflexivity.
  - apply (C2_percent (of_Z 7) (of_Z 9)); reflexivity.
Defined.

End PercentFacts.

(** ** The progress parser *)

Section ProgressFacts.

Import PyFloat Progress Spec.

(** C7. With a total duration of 10 seconds, the line
    [out_time_ms=5000000] and the line [out_time=00:00:05.000000] both
    carry the elapsed time 5.0 and both give the float 50.0, with no
    rounding error; the update printed for either is the same. *)
Theorem C7_two_encodings :
  done_seconds "out_time_ms=5000000" = Some (ret (of_Z 5))
  /\ done_seconds "out_time=00:00:05.000000" = Some (ret (of_Z 5))
  /\ percent (of_Z 5) (of_Z 10) = ret (of_Z 50)
  /\ loop_body (of_Z 10) (-1) "out_time_ms=5000000" = ret (50, Some (of_Z 50))
  /\ loop_body (of_Z 10) (-1) "out_time=00:00:05.000000"
     = ret (50, Some (of_Z 50))
  /\ of_string "10" = ret (of_Z 10)
  /\ of_string "50.0" = ret (of_Z 50).
Proof. repeat split; vm_compute; reflexivity. Qed.

(** [int(x)], when it returns, returns [trunc x]. *)
Lemma to_int_trunc (x : float) (t : Z) : to_int x = inr t -> t = trunc x.
Proof. destruct x; simpl; intros H; inversion H; reflexivity. Qed.

(** C4 (amended). A line in which neither regular expression finds a match
    is skipped: the loop body raises nothing, prints nothing and leaves
    [last_pct] as it was, whatever the duration. *)
Theorem C4_unmatched_line_ignored (D : float) (last : Z) (line : string) :
  re_us line = None -> re_hms line = None ->
  loop_body D last line = ret (last, None)
  /\ forall rest, loop D last (line :: rest) = loop D last rest.
Proof.
  intros Hus Hhms.
  assert (Hb : loop_body D last line = ret (last, None)).
  { unfold loop_body, done_seconds. now rewrite Hus, Hhms. }
  split; [exact Hb|].
  intros rest. simpl. rewrite Hb. simpl.
  now destruct (loop D last rest).
Qed.

Lemma C4_unmatched_line_ignored_witness :
  re_us "frame=  240 fps= 60 out_time_us=N/A" = None
  /\ re_hms "frame=  240 fps= 60 out_time_us=N/A" = None
  /\ loop_body (of_Z 10) 7 "frame=  240 fps= 60 out_time_us=N/A"
     = ret (7, None)
  /\ forall rest : list string,
       loop (of_Z 10) 7 ("frame=  240 fps= 60 out_time_us=N/A" :: rest)
       = loop (of_Z 10) 7 rest.
Proof.
  split; [reflexivity|]. split; [reflexivity|].
  apply (C4_unmatched_line_ignored (of_Z 10) 7
           "frame=  240 fps= 60 out_time_us=N/A"); reflexivity.
Defined.

(** C4 as the specification states it fails on a malformed variant of the
    second form: [out_time=1:2] matches [re_hms], has two fields where
    three are unpacked, and the loop body raises [ValueError]. *)
Lemma C4_counterexample :
  re_hms "out_time=1:2" = Some "1:2"
  /\ loop_body (of_Z 10) (-1) "out_time=1:2" = raise ValueError
  /\ loop (of_Z 10) (-1) ["out_time=1:2"] = ([], raise ValueError).
Proof. repeat split; vm_compute; reflexivity. Qed.

(** C3 (amended). The loop has no guard on the duration: for a line that
    carries an elapsed time, the percent is always computed by dividing by
    [total_duration].  With a zero duration, of either sign, the pass
    raises [ZeroDivisionError]; with any other duration the division goes
    through, the percent is [min(done / total * 100, 100)] and the pass
    does not end in [ZeroDivisionError]. *)
Theorem C3_division_unguarded (D done : float) (last : Z) (line : string) :
  done_seconds line = Some (ret done) ->
  if is_zero D
  then loop_body D last line = raise ZeroDivisionError
       /\ percent done D = raise ZeroDivisionError
  else percent done D = ret (min_100 (fmul (SFdiv prec emax done D) hundred))
       /\ loop_body D last line <> raise ZeroDivisionError.
Proof.
  intros Hd. unfold loop_body, percent, truediv. rewrite Hd.
  destruct (is_zero D); cbn [bind ret raise]; [auto|].
  split; [reflexivity|].
  destruct (min_100 (fmul (SFdiv prec emax done D) hundred)) as [s|s| |s m e];
    cbn [to_int bind ret raise]; try discriminate;
    match goal with |- context [if ?b then _ else _] => destruct b end;
    discriminate.
Qed.

Lemma C3_division_unguarded_witness :
  (done_seconds "out_time_ms=5000000" = Some (ret (of_Z 5))
   /\ loop_body (S754_zero false) (-1) "out_time_ms=5000000"
      = raise ZeroDivisionError
   /\ percent (of_Z 5) (S754_zero false) = raise ZeroDivisionError)
  /\ (percent (of_Z 5) (of_Z 10)
      = ret (min_100 (fmul (SFdiv prec emax (of_Z 5) (of_Z 10)) hundred))
      /\ loop_body (of_Z 10) (-1) "out_time_ms=5000000"
         <> raise ZeroDivisionError).
Proof.
  split.
  - split; [vm_compute; reflexivity|].
    apply (C3_division_unguarded (S754_zero false) (of_Z 5) (-1)
             "out_time_ms=5000000").
    vm_compute; reflexivity.
  - apply (C3_division_unguarded (of_Z 10) (of_Z 5) (-1)
             "out_time_ms=5000000").
    vm_compute; reflexivity.
Defined.

End ProgressFacts.

(** ** The elapsed times *)

Section ParsedTimes.

Import PyFloat Progress Spec Real Round.

Lemma of_ratio_nn (a b : Z) : 0 <= a -> 0 < b -> nn (of_ratio a b).
Proof.
  intros Ha Hb. unfold of_ratio. destruct a as [|p|p]; try lia.
  - exact I.
  - exact (rounds_to_nn _ _ (div_core_rounds (Zpos p) 0 b 0 eq_refl Hb)).
Qed.

Lemma of_decimal_nn (n x : Z) : 0 <= n -> nn (of_decimal n x).
Proof.
  intros Hn. unfold of_decimal.
  destruct x as [|p|p]; apply of_ratio_nn; try lia;
    pose proof (Z.pow_pos_nonneg 10 (Zpos p)); nia.
Qed.

Lemma digit_val_nonneg (c : ascii) : is_digit c = true -> 0 <= digit_val c.
Proof.
  unfold is_digit, digit_val. intros H.
  apply andb_true_iff in H. destruct H as [H _].
  apply N.leb_le in H. lia.
Qed.

Lemma digitpart_tail_nonneg (k : nat) : forall s acc n,
  (String.length s <= k)%nat -> 0 <= acc ->
  0 <= fst (fst (digitpart_tail s acc n)).
Proof.
  induction k as [|k IH]; intros s acc n Hk Ha.
  - destruct s; [exact Ha|simpl in Hk; lia].
  - destruct s as [|c r]; [exact Ha|]. simpl in Hk. cbn [digitpart_tail].
    destruct (is_digit c) eqn:Hc.
    + apply IH; [lia|]. pose proof (digit_val_nonneg c Hc). lia.
    + destruct (Ascii.eqb c "_"); [|exact Ha].
      destruct r as [|d r']; [exact Ha|].
      destruct (is_digit d) eqn:Hd; [|exact Ha].
      apply IH; [simpl in Hk; lia|].
      pose proof (digit_val_nonneg d Hd). lia.
Qed.

Lemma digitpart_nonneg (s : string) (acc n m j : Z) (r : string) :
  0 <= acc -> digitpart s acc n = Some (m, j, r) -> 0 <= m.
Proof.
  intros Ha. unfold digitpart. destruct s as [|c t]; [discriminate|].
  destruct (is_digit c) eqn:Hc; [|discriminate].
  intros H.
  assert (E : digitpart_tail t (10 * acc + digit_val c) (n + 1) = (m, j, r))
    by congruence.
  pose proof (digitpart_tail_nonneg (String.length t) t
                (10 * acc + digit_val c) (n + 1) (Nat.le_refl _)) as Hn.
  rewrite E in Hn. apply Hn.
  pose proof (digit_val_nonneg c Hc). lia.
Qed.

Lemma parse_number_nonneg (s : string) (m j : Z) (r : string) :
  parse_number s = Some (m, j, r) -> 0 <= m.
Proof.
  unfold parse_number.
  destruct (digitpart s 0 0) as [[[n0 j0] r0]|] eqn:H0.
  - pose proof (digitpart_nonneg _ _ _ _ _ _ (Z.le_refl 0) H0) as Hn0.
    destruct r0 as [|c r'].
    + intros H. inversion H. now subst.
    + destruct (Ascii.eqb_spec c ".") as [->|Hne].
      * destruct (digitpart r' n0 0) as [[[n1 j1] r1]|] eqn:H1.
        -- intros H. inversion H. subst.
           exact (digitpart_nonneg _ _ _ _ _ _ Hn0 H1).
        -- intros H. inversion H. now subst.
      * assert (E : match c with
                    | "."%char =>
                        match digitpart r' n0 0 with
                        | Some x => Some x
                        | None => Some (n0, 0, r')
                        end
                    | _ => Some (n0, 0, String c r')
                    end = Some (n0, 0, String c r')).
        { destruct c as [[] [] [] [] [] [] [] []]; try reflexivity.
          now elim Hne. }
        rewrite E. intros H. inversion H. now subst.
  - destruct s as [|c r']; [discriminate|].
    destruct (Ascii.eqb_spec c ".") as [->|Hne].
    + intros H. exact (digitpart_nonneg _ _ _ _ _ _ (Z.le_refl 0) H).
    + assert (E : match c with
                  | "."%char => digitpart r' 0 0
                  | _ => None
                  end = None).
      { destruct c as [[] [] [] [] [] [] [] []]; try reflexivity.
        now elim Hne. }
      rewrite E. discriminate.
Qed.

(** Strings of digits, points and colons. *)
Lemma all_chars_rev_append (p : ascii -> bool) (s acc : string) :
  all_chars p s = true -> all_chars p acc = true ->
  all_chars p (PyStr.rev_append s acc) = true.
Proof.
  revert acc. induction s as [|c r IH]; intros acc Hs Ha; simpl; [exact Ha|].
  simpl in Hs. apply andb_true_iff in Hs. destruct Hs as [Hc Hr].
  apply IH; [exact Hr|]. simpl. now rewrite Hc.
Qed.

Lemma all_chars_lstrip (p : ascii -> bool) (s : string) :
  all_chars p s = true -> all_chars p (lstrip s) = true.
Proof.
  induction s as [|c r IH]; intros Hs; simpl; [reflexivity|].
  destruct (is_float_space c); [|exact Hs].
  simpl in Hs. apply andb_true_iff in Hs. now apply IH.
Qed.

Lemma all_chars_strip (p : ascii -> bool) (s : string) :
  all_chars p s = true -> all_chars p (strip s) = true.
Proof.
  intros H. unfold strip, PyStr.rev.
  apply all_chars_rev_append; [|reflexivity].
  apply all_chars_lstrip. apply all_chars_rev_append; [|reflexivity].
  now apply all_chars_lstrip.
Qed.

Lemma all_chars_take_while (p : ascii -> bool) (s : string) :
  all_chars p (take_while p s) = true.
Proof.
  induction s as [|c r IH]; simpl; [reflexivity|].
  destruct (p c) eqn:Hc; simpl; [now rewrite Hc|reflexivity].
Qed.

Lemma re_search_all (key : string) (p : ascii -> bool) (line g : string) :
  re_search key p line = Some g -> all_chars p g = true.
Proof.
  induction line as [|c r IH]; simpl.
  - destruct (PyStr.strip_prefix key "") as [rest|]; [|discriminate].
    pose proof (all_chars_take_while p rest) as Ht.
    destruct (take_while p rest); [discriminate|].
    intros H. inversion H. now subst.
  - destruct (PyStr.strip_prefix key (String c r)) as [rest|]; [|exact IH].
    pose proof (all_chars_take_while p rest) as Ht.
    destruct (take_while p rest); [exact IH|].
    intros H. inversion H. now subst.
Qed.

Lemma split_colon_all (p : ascii -> bool) (g : string) :
  all_chars p g = true -> Forall (fun w => all_chars p w = true) (split_colon g).
Proof.
  induction g as [|c r IH]; intros H; simpl.
  - repeat constructor.
  - simpl in H. apply andb_true_iff in H. destruct H as [Hc Hr].
    specialize (IH Hr).
    destruct (Ascii.eqb c ":").
    + constructor; [reflexivity|exact IH].
    + destruct (split_colon r) as [|w ws].
      * repeat constructor. simpl. now rewrite Hc.
      * inversion IH; subst. constructor; [|assumption].
        simpl. now rewrite Hc.
Qed.

(** A character of an [out_time] capture is no sign and no letter. *)
Lemma hms_char_facts :
  forall_ascii (fun c =>
    implb (is_hms_char c)
      (negb (Ascii.eqb c "-") && negb (Ascii.eqb c "+")
       && negb (Ascii.eqb (PyStr.ascii_fold c) "n"))) = true.
Proof. vm_compute. reflexivity. Qed.

Lemma of_string_hms (s : string) (h : float) :
  all_chars is_hms_char s = true -> of_string s = inr h -> nn h.
Proof.
  intros Hs. apply all_chars_strip in Hs. unfold of_string.
  destruct (strip s) as [|c t].
  - simpl. discriminate.
  - simpl in Hs. apply andb_true_iff in Hs. destruct Hs as [Hc Ht].
    pose proof (forall_ascii_spec _ hms_char_facts c) as Hf.
    cbv beta in Hf. rewrite Hc in Hf. simpl in Hf.
    apply andb_true_iff in Hf. destruct Hf as [Hf Hn].
    apply andb_true_iff in Hf. destruct Hf as [Hm Hp].
    apply negb_true_iff in Hm, Hp, Hn.
    assert (Hsign : parse_sign (String c t) = (false, String c t)).
    { destruct c as [[] [] [] [] [] [] [] []]; try reflexivity;
        discriminate. }
    rewrite Hsign.
    destruct (PyStr.caseless_eqb (String c t) "inf"
              || PyStr.caseless_eqb (String c t) "infinity").
    + intros H. inversion H. reflexivity.
    + assert (Hnan : PyStr.caseless_eqb (String c t) "nan" = false).
      { simpl. change (PyStr.ascii_fold "n") with "n"%char. now rewrite Hn. }
      rewrite Hnan.
      destruct (parse_number (String c t)) as [[[n k] r1]|] eqn:Hnum;
        [|discriminate].
      destruct (parse_exponent r1) as [x [|c2 r2]]; [|discriminate].
      intros H. inversion H. simpl.
      apply of_decimal_nn. exact (parse_number_nonneg _ _ _ _ Hnum).
Qed.

Lemma mul_fin_nn (x : float) (m : positive) (e : Z) :
  nn x -> bounded prec emax m e = true ->
  nn (fmul x (S754_finite false m e)).
Proof.
  intros Hx B.
  apply (op_nn (fun x => fmul x (S754_finite false m e))
               (fun v => (v * F2R (Zpos m) e)%R)); [| |exact (fun m0 e0 B0 => SFmul_rounds m0 e0 m e B0 B)|exact Hx].
  - intros s. now exists (xorb s false).
  - reflexivity.
Qed.

Lemma add_nn (x y : float) : nn x -> nn y -> nn (fadd x y).
Proof.
  intros Hx Hy.
  destruct (nn_cases x Hx) as [[sx ->]|[->|(mx & ex & -> & Bx)]];
    destruct (nn_cases y Hy) as [[sy ->]|[->|(my & ey & -> & By)]];
    try exact Hx; try exact Hy; try reflexivity.
  - destruct sx, sy; exact I.
  - exact (rounds_to_nn _ _ (SFadd_rounds mx ex my ey)).
Qed.

Lemma hms_seconds_nn (g : string) (E : float) :
  all_chars is_hms_char g = true -> hms_seconds g = inr E -> nn E.
Proof.
  intros Hg. apply split_colon_all in Hg. unfold hms_seconds.
  destruct (split_colon g) as [|a [|b [|c [|d l]]]]; try discriminate.
  inversion Hg as [|? ? Ha Hg1]; subst.
  inversion Hg1 as [|? ? Hb Hg2]; subst.
  inversion Hg2 as [|? ? Hc _]; subst.
  destruct (of_string a) as [|h] eqn:Eh; [discriminate|].
  destruct (of_string b) as [|m_] eqn:Em; [discriminate|].
  destruct (of_string c) as [|s] eqn:Es; [discriminate|].
  simpl. intros H. inversion H.
  apply add_nn; [apply add_nn|].
  - apply mul_fin_nn; [exact (of_string_hms a h Ha Eh)|reflexivity].
  - apply mul_fin_nn; [exact (of_string_hms b m_ Hb Em)|reflexivity].
  - exact (of_string_hms c s Hc Es).
Qed.

Lemma int_of_digits_nonneg (s : string) (acc : Z) :
  all_chars is_digit s = true -> 0 <= acc -> 0 <= int_of_digits s acc.
Proof.
  revert acc. induction s as [|c r IH]; intros acc Hs Ha;
    cbn [int_of_digits]; [exact Ha|].
  cbn [all_chars] in Hs. apply andb_true_iff in Hs. destruct Hs as [Hc Hr].
  apply IH; [exact Hr|]. pose proof (digit_val_nonneg c Hc). lia.
Qed.

(** Every elapsed time the loop computes is a non-negative float. *)
Lemma done_seconds_nn (line : string) (E : float) :
  done_seconds line = Some (inr E) -> nn E.
Proof.
  unfold done_seconds, re_us, re_hms.
  destruct (re_search "out_time_ms=" is_digit line) as [g|] eqn:Hus.
  - apply re_search_all in Hus. unfold int_of_str, int_truediv.
    destruct (int_max_str_digits <? Z.of_nat (String.length g));
      cbn [bind ret raise]; [discriminate|].
    pose proof (of_ratio_nn (int_of_digits g 0) 1000000
                  (int_of_digits_nonneg g 0 Hus (Z.le_refl 0)) eq_refl) as Hn.
    destruct (of_ratio (int_of_digits g 0) 1000000); intros H; inversion H;
      subst; exact Hn.
  - destruct (re_search "out_time=" is_hms_char line) as [g|] eqn:Hh;
      [|discriminate].
    apply re_search_all in Hh. intros H. inversion H as [H1].
    exact (hms_seconds_nn g E Hh H1).
Qed.

Lemma elapsed_nn (lines : list string) : Forall nn (elapsed lines).
Proof.
  induction lines as [|line rest IH]; simpl; [constructor|].
  destruct (done_seconds line) as [[e|E]|] eqn:Hd; auto.
  constructor; [exact (done_seconds_nn line E Hd)|exact IH].
Qed.

(** For a positive duration the truncated percents are a function of the
    elapsed times, and an increasing one. *)
Lemma line_truncs_elapsed (mD : positive) (eD : Z) (lines : list string) :
  line_truncs (S754_finite false mD eD) lines
  = map (fun E => trunc (pct (S754_finite false mD eD) E)) (elapsed lines).
Proof.
  induction lines as [|line rest IH]; [reflexivity|].
  cbn [line_truncs elapsed].
  destruct (done_seconds line) as [[e|E]|] eqn:Hd; [reflexivity| |exact IH].
  cbn [bind]. rewrite (percent_pct mD eD). unfold ret. cbn [bind].
  rewrite (pct_to_int mD eD E (done_seconds_nn line E Hd)). unfold ret.
  cbn [map]. now rewrite IH.
Qed.

Lemma chain_pct (mD : positive) (eD : Z) (l : list float) :
  Forall nn l -> chain SFleb l = true ->
  nondecreasing (map (fun E => trunc (pct (S754_finite false mD eD) E)) l)
  = true.
Proof.
  induction l as [|a [|b l] IH]; intros Hn Hc; try reflexivity.
  inversion Hn as [|? ? Ha Hn1]; subst. inversion Hn1 as [|? ? Hb _]; subst.
  change (SFleb a b && chain SFleb (b :: l) = true) in Hc.
  apply andb_true_iff in Hc. destruct Hc as [Hab Hc].
  change (Z.leb (trunc (pct (S754_finite false mD eD) a))
                (trunc (pct (S754_finite false mD eD) b))
          && nondecreasing
               (map (fun E => trunc (pct (S754_finite false mD eD) E)) (b :: l))
          = true).
  rewrite (IH Hn1 Hc), andb_true_r. apply Z.leb_le.
  apply pct_mono; auto.
  pose proof (SFcompare_nn a b Ha Hb) as Hcmp. unfold SFleb in Hab.
  destruct (SFcompare a b) as [[]|]; try discriminate;
    [rewrite Hcmp; apply Rle_refl | apply Rlt_le; exact Hcmp].
Qed.

End ParsedTimes.

(** ** The throttle *)

Section Throttle.

Import PyFloat Progress Spec Real Round.

(** The printed values are the computed ones without those equal to their
    predecessor. *)
Lemma emitted_dedup (D : float) (lines : list string) (last : Z) :
  map trunc (fst (loop D last lines)) = dedup last (line_truncs D lines).
Proof.
  revert last. induction lines as [|line rest IH]; intros last; simpl.
  - reflexivity.
  - unfold loop_body.
    destruct (done_seconds line) as [[e|done]|]; simpl.
    + reflexivity.
    + destruct (percent done D) as [e|pct]; simpl; [reflexivity|].
      destruct (to_int pct) as [e|t] eqn:Ht; simpl; [reflexivity|].
      apply to_int_trunc in Ht. subst t.
      destruct (Z.eqb (trunc pct) last); simpl.
      * rewrite <- IH. now destruct (loop D last rest).
      * rewrite <- IH. now destruct (loop D (trunc pct) rest).
    + rewrite <- IH. now destruct (loop D last rest).
Qed.

Lemma dedup_no_repeat (l : list Z) (last : Z) :
  no_repeat (last :: dedup last l) = true.
Proof.
  revert last. induction l as [|t r IH]; intros last; simpl.
  - reflexivity.
  - destruct (Z.eqb_spec t last) as [Heq|Hne].
    + apply IH.
    + change (negb (last =? t) && no_repeat (t :: dedup t r) = true).
      rewrite IH, andb_true_r.
      apply negb_true_iff, Z.eqb_neq. congruence.
Qed.

Lemma chain_tail {A : Type} (r : A -> A -> bool) (a : A) (l : list A) :
  chain r (a :: l) = true -> chain r l = true.
Proof.
  destruct l as [|b l]; simpl; [reflexivity|].
  intros H. now apply andb_true_iff in H.
Qed.

Lemma dedup_increasing (l : list Z) (last : Z) :
  nondecreasing (last :: l) = true -> increasing (last :: dedup last l) = true.
Proof.
  revert last. induction l as [|t r IH]; intros last H.
  - reflexivity.
  - change (Z.leb last t && nondecreasing (t :: r) = true) in H.
    apply andb_true_iff in H. destruct H as [Hle Hr].
    simpl dedup. destruct (Z.eqb_spec t last) as [Heq|Hne].
    + subst t. now apply IH.
    + change (Z.ltb last t && increasing (t :: dedup t r) = true).
      rewrite (IH t Hr), andb_true_r.
      apply Z.ltb_lt. apply Z.leb_le in Hle. lia.
Qed.

Lemma dedup_increasing_any (l : list Z) (last : Z) :
  nondecreasing l = true -> increasing (dedup last l) = true.
Proof.
  revert last. induction l as [|t r IH]; intros last H.
  - reflexivity.
  - simpl dedup. destruct (Z.eqb t last).
    + apply IH. exact (chain_tail _ _ _ H).
    + now apply dedup_increasing.
Qed.

Lemma increasing_nondecreasing (l : list Z) :
  increasing l = true -> nondecreasing l = true.
Proof.
  induction l as [|a [|b l] IH]; intros H; try reflexivity.
  change (Z.ltb a b && increasing (b :: l) = true) in H.
  apply andb_true_iff in H. destruct H as [Hab H].
  change (Z.leb a b && nondecreasing (b :: l) = true).
  rewrite (IH H), andb_true_r. apply Z.leb_le. apply Z.ltb_lt in Hab. lia.
Qed.

(** C5 (amended). For every duration and every sequence of lines, no two
    successive printed values have the same truncation, and the first is
    not the sentinel.  When the duration is a positive number and the
    values of [done_seconds] the loop computes for the successive lines,
    as floats, do not decrease, the truncated values printed increase, so
    they do not decrease either.  The condition is on the computed
    floats, not on the instants the lines denote: see
    [mixed_encodings_flicker]. *)
Theorem C5_throttle (D : float) (lines : list string) :
  no_repeat (-1 :: emitted D lines) = true
  /\ (positive_finite D = true ->
      chain SFleb (elapsed lines) = true ->
      increasing (emitted D lines) = true
      /\ nondecreasing (emitted D lines) = true).
Proof.
  split.
  - unfold emitted. rewrite emitted_dedup. apply dedup_no_repeat.
  - intros HD Hc.
    assert (Hi : increasing (emitted D lines) = true).
    { unfold emitted. rewrite emitted_dedup.
      apply dedup_increasing_any.
      destruct D as [s|s| |[] mD eD]; try discriminate.
      rewrite line_truncs_elapsed.
      apply chain_pct; [apply elapsed_nn|exact Hc]. }
    split; [exact Hi|now apply increasing_nondecreasing].
Qed.

Lemma C5_throttle_witness :
  no_repeat
    (-1 :: emitted (of_Z 10)
             ["out_time_ms=2000000"; "frame=12"; "out_time=00:00:02.040000";
              "out_time_ms=5000000"; "out_time=00:00:09.990000"]) = true
  /\ increasing
       (emitted (of_Z 10)
          ["out_time_ms=2000000"; "frame=12"; "out_time=00:00:02.040000";
           "out_time_ms=5000000"; "out_time=00:00:09.990000"]) = true
  /\ nondecreasing
       (emitted (of_Z 10)
          ["out_time_ms=2000000"; "frame=12"; "out_time=00:00:02.040000";
           "out_time_ms=5000000"; "out_time=00:00:09.990000"]) = true.
Proof.
  destruct (C5_throttle (of_Z 10)
              ["out_time_ms=2000000"; "frame=12"; "out_time=00:00:02.040000";
               "out_time_ms=5000000"; "out_time=00:00:09.990000"])
    as [H1 H2].
  split; [exact H1|]. apply H2; reflexivity.
Defined.

(** C5 as the specification states it fails when the engine reports less
    elapsed time than before: with a duration of 10 seconds, 5 seconds then 2 seconds
    print 50 then 20. *)
Lemma C5_counterexample :
  emitted (of_Z 10) ["out_time_ms=5000000"; "out_time_ms=2000000"] = [50; 20]
  /\ nondecreasing
       (emitted (of_Z 10) ["out_time_ms=5000000"; "out_time_ms=2000000"])
     = false.
Proof. split; vm_compute; reflexivity. Qed.

(** The two encodings of one instant need not give the same float: 70.29
    seconds is [70290000 / 1000000] in microseconds and [60 + 10.29], one
    unit in the last place lower, as a timestamp.  With a duration of 71
    seconds the first is 99 percent and the second 98, so a block that
    reports the instant both ways prints 99 then 98, although no line
    denotes less time than the line before. *)
Lemma mixed_encodings_flicker :
  emitted (of_Z 71) ["out_time_ms=70290000"; "out_time=00:01:10.290000"]
  = [99; 98]
  /\ chain SFleb
       (elapsed ["out_time_ms=70290000"; "out_time=00:01:10.290000"])
     = false.
Proof. split; vm_compute; reflexivity. Qed.

End Throttle.

(** ** The script *)

Section ScriptFacts.

Import PyFloat Script Spec.

Lemma of_string_error (s : string) (e : exn) :
  of_string s = inl e -> e = ValueError.
Proof.
  unfold of_string.
  destruct (parse_sign (strip s)) as [neg r].
  destruct (PyStr.caseless_eqb r "inf" || PyStr.caseless_eqb r "infinity");
    [discriminate|].
  destruct (PyStr.caseless_eqb r "nan"); [discriminate|].
  destruct (parse_number r) as [[[n k] r1]|].
  - destruct (parse_exponent r1) as [x [|c r2]]; simpl; intros H; inversion H.
    reflexivity.
  - intros H. inversion H. reflexivity.
Qed.

(** C8. When the text printed for the duration query is not a number for
    [float] (the empty text, "N/A", ...), the run ends in [get_duration]
    with the [ValueError] of [float]: the duration query is the only thing
    that happened, no codec was probed, no command line was built and
    [ffmpeg] was not started. *)
Theorem C8_unparsable_duration (w : World) (src out : string) (e : exn) :
  check_output w (duration_cmd src) = inr out ->
  of_string (str_strip out) = inl e ->
  remux_with_progress w src
  = ([EvCheckOutput (duration_cmd src)], raise ValueError).
Proof.
  intros Hout Hf.
  pose proof (of_string_error _ _ Hf) as He. subst e.
  unfold remux_with_progress, get_duration, call_check_output, io_bind, io_lift.
  rewrite Hout, Hf. reflexivity.
Qed.

Lemma C8_unparsable_duration_witness :
  (of_string (str_strip "") = inl ValueError
   /\ remux_with_progress (world_of "" "aac" [] 0) "film.mkv"
      = ([EvCheckOutput (duration_cmd "film.mkv")], raise ValueError))
  /\ (of_string (str_strip "N/A") = inl ValueError
      /\ remux_with_progress (world_of "N/A" "aac" [] 0) "film.mkv"
         = ([EvCheckOutput (duration_cmd "film.mkv")], raise ValueError)).
Proof.
  split; (split; [vm_compute; reflexivity|]).
  - apply (C8_unparsable_duration (world_of "" "aac" [] 0) "film.mkv" ""
             ValueError); vm_compute; reflexivity.
  - apply (C8_unparsable_duration (world_of "N/A" "aac" [] 0) "film.mkv" "N/A"
             ValueError); vm_compute; reflexivity.
Defined.



(** The exceptions of the loop are those of the conversions and of the
    division; it never exits by itself. *)
Lemma loop_body_error (D : float) (last : Z) (line : string) (e : exn) :
  Progress.loop_body D last line = inl e -> arithmetic_error e.
Proof.
  unfold Progress.loop_body, Progress.done_seconds, arithmetic_error.
  destruct (Progress.re_us line) as [g|].
  - unfold Progress.int_of_str, int_truediv.
    destruct (Progress.int_max_str_digits <? Z.of_nat (String.length g));
      cbn [bind ret raise]; [intros H; inversion H; now auto|].
    destruct (of_ratio (Progress.int_of_digits g 0) 1000000) as [s|s| |s m x];
      cbn [bind ret raise]; try (intros H; inversion H; now auto);
      unfold Progress.percent, truediv;
      (destruct (is_zero D); cbn [bind ret raise];
       [intros H; inversion H; now auto|]);
      match goal with
      | |- context [to_int ?p] =>
          destruct p as [s'|s'| |s' m' x']; cbn [to_int bind ret raise]
      end;
      try (intros H; inversion H; now auto);
      match goal with |- context [if ?b then _ else _] => destruct b end;
      discriminate.
  - destruct (Progress.re_hms line) as [g|]; [|discriminate].
    unfold Progress.hms_seconds.
    destruct (Progress.split_colon g) as [|a [|b [|c [|d l]]]];
      cbn [bind ret raise]; try (intros H; inversion H; now auto).
    destruct (of_string a) as [ea|h] eqn:Ea; cbn [bind];
      [apply of_string_error in Ea; intros H; inversion H; subst; now auto|].
    destruct (of_string b) as [eb|m_] eqn:Eb; cbn [bind];
      [apply of_string_error in Eb; intros H; inversion H; subst; now auto|].
    destruct (of_string c) as [ec|s] eqn:Ec; cbn [bind];
      [apply of_string_error in Ec; intros H; inversion H; subst; now auto|].
    unfold ret, Progress.percent, truediv. cbn [bind].
    destruct (is_zero D); cbn [bind ret raise];
      [intros H; inversion H; now auto|].
    match goal with
    | |- context [to_int ?p] =>
        destruct p as [s'|s'| |s' m' x']; cbn [to_int bind ret raise]
    end;
    try (intros H; inversion H; now auto);
    match goal with |- context [if ?b then _ else _] => destruct b end;
    discriminate.
Qed.

Lemma loop_error (D : float) (lines : list string) (last : Z) (e : exn) :
  snd (Progress.loop D last lines) = inl e -> arithmetic_error e.
Proof.
  revert last. induction lines as [|line rest IH]; intros last; simpl.
  - discriminate.
  - destruct (Progress.loop_body D last line) as [e'|[last' out]] eqn:Hb.
    + simpl. intros H. inversion H. subst.
      exact (loop_body_error D last line e Hb).
    + specialize (IH last'). destruct (Progress.loop D last' rest) as [outs r].
      exact IH.
Qed.

(** The other direction of C9: unless [ffprobe] or the launch of [ffmpeg]
    itself ends the script, a run that ends in [sys.exit(c)] has started
    [ffmpeg], and [c] is the return code of that process. *)
Lemma exit_code_from_child (w : World) (src : string) (c : Z) :
  (forall cmd n, check_output w cmd <> inl (SystemExit n)) ->
  (forall cmd n, popen w cmd <> inl (SystemExit n)) ->
  snd (remux_with_progress w src) = inl (SystemExit c) ->
  exists cmd lines,
    In (EvPopen cmd) (fst (remux_with_progress w src))
    /\ popen w cmd = inr (lines, c).
Proof.
  intros Hco Hpo.
  unfold remux_with_progress, get_duration, detect_audio_codec,
    detect_video_codec, ffprobe_field, call_check_output, call_popen,
    progress_loop, io_bind, io_lift, io_ret, io_emit, ret, raise.
  destruct (check_output w (duration_cmd src)) as [e|dout] eqn:Hd.
  { simpl. intros H. inversion H. subst. now elim (Hco _ _ Hd). }
  destruct (of_string (str_strip dout)) as [e|D] eqn:HD.
  { simpl. intros H. inversion H. subst.
    apply of_string_error in HD. discriminate. }
  destruct (check_output w (field_cmd src "a:0" "codec_name")) as [e|aout]
    eqn:Ha.
  { simpl. intros H. inversion H. subst. now elim (Hco _ _ Ha). }
  destruct (check_output w (field_cmd src "v:0" "codec_name")) as [e|vout]
    eqn:Hv.
  { simpl. intros H. inversion H. subst. now elim (Hco _ _ Hv). }
  cbv beta iota zeta.
  destruct (popen w _) as [e|[lines rc]] eqn:Hp.
  { simpl. intros H. inversion H. subst. now elim (Hpo _ _ Hp). }
  pose proof (loop_error D lines (-1)) as Hle.
  destruct (Progress.loop D (-1) lines) as [outs [e|last]].
  { simpl. intros H. inversion H. subst.
    destruct (Hle _ eq_refl) as [E|[E|E]]; discriminate. }
  cbv beta iota zeta. cbn [fst snd]. intros H. inversion H. subst.
  eexists. exists lines. split; [|exact Hp].
  rewrite ?app_nil_r, <- ?app_assoc. cbn [app].
  do 4 right. left. reflexivity.
Qed.


(** C3 as the specification states it fails on a file whose duration is
    reported as 0:
    the first progress line ends the run with [ZeroDivisionError], after
    [ffmpeg] has been started and before any update is printed. *)
Lemma C3_counterexample :
  remux_with_progress
    (world_of "0.000000" "aac" ["out_time_ms=5000000"] 0) "film.mkv"
  = ([EvCheckOutput (duration_cmd "film.mkv");
      EvCheckOutput (field_cmd "film.mkv" "a:0" "codec_name");
      EvCheckOutput (field_cmd "film.mkv" "v:0" "codec_name");
      EvCodecs "aac" "aac";
      EvPopen (build_ffmpeg_cmd "film.mkv" "film.mp4" "aac" "aac")],
     raise ZeroDivisionError).
Proof. vm_compute; reflexivity. Qed.

End ScriptFacts.

(** ** The updates of a run *)

Section LoopExtras.

Import PyFloat Progress Spec Real Round Shapes.

Lemma Forall_dedup (P : Z -> Prop) (l : list Z) (last : Z) :
  Forall P l -> Forall P (dedup last l).
Proof.
  revert last. induction l as [|t r IH]; intros last H; simpl; [constructor|].
  inversion H; subst. destruct (t =? last); auto.
Qed.

Lemma trunc_pct_range (mD : positive) (eD : Z) (E : float) :
  nn E -> 0 <= trunc (pct (S754_finite false mD eD) E) <= 100.
Proof.
  intros HE.
  destruct (pct_nn mD eD E HE) as [Hn Hi].
  pose proof (trunc_spec _ Hn Hi) as [Hl Hu].
  assert (Hv : (0 <= val (pct (S754_finite false mD eD) E) <= 100)%R).
  { pose proof (nn_val_bounds _ Hn) as [H0 _]. split; [exact H0|].
    unfold pct.
    destruct (min_100_spec _ (mul_hundred_nn _ (div_nn mD eD E HE)))
      as (_ & _ & ->).
    apply Rmin_r. }
  split.
  - assert (IZR (-1) < IZR (trunc (pct (S754_finite false mD eD) E)))%R.
    { simpl. lra. }
    apply lt_IZR in H. lia.
  - apply le_IZR. lra.
Qed.

Lemma emitted_bounds (mD : positive) (eD : Z) (lines : list string) :
  Forall (in_range 0 100) (emitted (S754_finite false mD eD) lines).
Proof.
  unfold emitted. rewrite emitted_dedup, line_truncs_elapsed.
  apply Forall_dedup. apply Forall_map.
  eapply Forall_impl; [|apply elapsed_nn].
  intros E HE. exact (trunc_pct_range mD eD E HE).
Qed.

(** X1. For a positive duration every update printed shows a percent from 0
    to 100. *)
Theorem X1_emitted_range (D : float) (lines : list string) :
  positive_finite D = true ->
  Forall (in_range 0 100) (emitted D lines).
Proof.
  intros HD. destruct D as [s|s| |[] mD eD]; try discriminate.
  apply emitted_bounds.
Qed.

Lemma X1_emitted_range_witness :
  Forall (in_range 0 100)
    (emitted (of_Z 10)
       ["out_time_ms=2500000"; "frame=7"; "out_time=00:00:25.0"]).
Proof.
  apply (X1_emitted_range (of_Z 10)
           ["out_time_ms=2500000"; "frame=7"; "out_time=00:00:25.0"]).
  reflexivity.
Defined.

Lemma increasing_length (l : list Z) (a hi : Z) :
  increasing (a :: l) = true -> Forall (fun t => t <= hi) (a :: l) ->
  Z.of_nat (List.length (a :: l)) <= hi - a + 1.
Proof.
  revert a. induction l as [|b l IH]; intros a Hi Hr.
  - inversion Hr; subst. simpl. lia.
  - change (Z.ltb a b && increasing (b :: l) = true) in Hi.
    apply andb_true_iff in Hi. destruct Hi as [Hab Hi].
    apply Z.ltb_lt in Hab.
    inversion Hr as [|? ? Ha Hr']; subst.
    specialize (IH b Hi Hr').
    change (List.length (a :: b :: l)) with (S (List.length (b :: l))).
    rewrite Nat2Z.inj_succ. lia.
Qed.

(** X2. The throttle bounds the output: for a positive duration, when the
    values of [done_seconds] the loop computes for the successive lines,
    as floats, do not decrease, a run prints at most 101 updates, however
    many lines the engine writes. *)
Theorem X2_emitted_at_most_101 (D : float) (lines : list string) :
  positive_finite D = true ->
  chain SFleb (elapsed lines) = true ->
  (List.length (emitted D lines) <= 101)%nat.
Proof.
  intros HD Hc.
  assert (Hr : Forall (in_range 0 100) (emitted D lines)).
  { destruct D as [s|s| |[] mD eD]; try discriminate HD.
    apply emitted_bounds. }
  assert (Hi : increasing (emitted D lines) = true).
  { unfold emitted. rewrite emitted_dedup.
    apply dedup_increasing_any.
    destruct D as [s|s| |[] mD eD]; try discriminate.
    rewrite line_truncs_elapsed.
    apply chain_pct; [apply elapsed_nn|exact Hc]. }
  destruct (emitted D lines) as [|a l]; [simpl; lia|].
  assert (Hr' : Forall (fun t => t <= 100) (a :: l)).
  { eapply Forall_impl; [|exact Hr]. intros t [_ Ht]. exact Ht. }
  pose proof (increasing_length l a 100 Hi Hr') as Hlen.
  inversion Hr as [|? ? [Ha _] _]; subst. lia.
Qed.

Lemma X2_emitted_at_most_101_witness :
  (List.length
     (emitted (of_Z 10)
        ["out_time_ms=1000000"; "out_time_ms=1000001"; "out_time_ms=1090000";
         "out_time_ms=9000000"]) <= 101)%nat.
Proof.
  apply (X2_emitted_at_most_101 (of_Z 10)
           ["out_time_ms=1000000"; "out_time_ms=1000001";
            "out_time_ms=1090000"; "out_time_ms=9000000"]); reflexivity.
Defined.



(** X4. Lines without an elapsed time are transparent: dropping them from the
    output of the engine changes neither what is printed nor how the loop
    ends. *)
Theorem X4_diagnostics_transparent (D : float) (lines : list string) (last : Z) :
  loop D last (filter has_time lines) = loop D last lines.
Proof.
  revert last. induction lines as [|line rest IH]; intros last;
    [reflexivity|].
  cbn [filter]. unfold has_time at 1.
  destruct (done_seconds line) as [d|] eqn:Hd.
  - cbn [loop]. destruct (loop_body D last line) as [e|[last' out]];
      [reflexivity|]. now rewrite IH.
  - rewrite IH. cbn [loop]. unfold loop_body. rewrite Hd.
    cbn [ret]. now destruct (loop D last rest).
Qed.

Lemma split_colon_length (g : string) :
  List.length (split_colon g) = S (count_colons g).
Proof.
  induction g as [|c r IH]; [reflexivity|].
  cbn [split_colon count_colons].
  destruct (Ascii.eqb c ":"); cbn [List.length]; [now rewrite IH|].
  destruct (split_colon r) as [|w ws]; [discriminate IH|exact IH].
Qed.

(** X5. A capture of [re_hms] with a number of colons other than two has not
    three fields to unpack: the pass raises [ValueError], whatever the
    duration and the state. *)
Theorem X5_hms_needs_two_colons (D : float) (last : Z) (line g : string) :
  re_us line = None -> re_hms line = Some g ->
  count_colons g <> 2%nat ->
  loop_body D last line = raise ValueError.
Proof.
  intros Hus Hh Hc. unfold loop_body, done_seconds. rewrite Hus, Hh.
  unfold hms_seconds.
  pose proof (split_colon_length g) as Hl.
  destruct (split_colon g) as [|a [|b [|c [|d l]]]]; try reflexivity.
  simpl in Hl. congruence.
Qed.

Lemma X5_hms_needs_two_colons_witness :
  loop_body (of_Z 10) 3 "out_time=00:00:05:00" = raise ValueError.
Proof.
  apply (X5_hms_needs_two_colons (of_Z 10) 3 "out_time=00:00:05:00" "00:00:05:00");
    [reflexivity|reflexivity|]. simpl. lia.
Defined.

End LoopExtras.

(** ** Elapsed times and the percent at the ends *)

Section NumericExtras.

Import PyFloat Progress Spec Real Round Shapes.

Lemma max_float_bounded : bounded prec emax 9007199254740991 971 = true.
Proof. reflexivity. Qed.

Lemma F2R_int (n : Z) : F2R n 0 = IZR n.
Proof. unfold F2R. rewrite bpow_0. ring. Qed.

(** A quotient of integers below the largest float does not overflow. *)
Lemma of_ratio_finite (a b : Z) :
  0 <= a -> 0 < b -> a <= b * max_float_Z ->
  nn (of_ratio a b) /\ of_ratio a b <> S754_infinity false.
Proof.
  intros Ha Hb Hab. split; [now apply of_ratio_nn|].
  unfold of_ratio. destruct a as [|p|p]; try lia; [discriminate|].
  pose proof (div_core_rounds (Zpos p) 0 b 0 eq_refl Hb) as Hr.
  pose proof (rounds_to_self _ _ max_float_bounded) as Hm.
  assert (Hx : (F2R (Zpos p) 0 / F2R b 0 <= F2R 9007199254740991 971)%R).
  { rewrite !F2R_int.
    replace (F2R 9007199254740991 971) with (IZR max_float_Z).
    2:{ unfold max_float_Z. rewrite <- F2R_int, F2R_shift by lia.
        reflexivity. }
    assert (Hb' : (0 < IZR b)%R) by (apply IZR_lt; lia).
    apply Rmult_le_reg_r with (IZR b); [exact Hb'|].
    replace (IZR (Zpos p) / IZR b * IZR b)%R with (IZR (Zpos p))
      by (field; lra).
    rewrite <- mult_IZR. apply IZR_le. lia. }
  pose proof (rounds_to_mono _ _ _ _ Hx Hr Hm) as Hv.
  pose proof (bounded_lt_emax _ _ max_float_bounded) as Hlt.
  intros Heq. rewrite Heq in Hv. simpl in Hv. lra.
Qed.

Lemma digit_val_le_9 (c : ascii) : is_digit c = true -> digit_val c <= 9.
Proof.
  unfold is_digit, digit_val. intros H.
  apply andb_true_iff in H. destruct H as [_ H].
  apply N.leb_le in H. lia.
Qed.

Lemma int_of_digits_bound (s : string) (acc : Z) :
  all_chars is_digit s = true -> 0 <= acc ->
  int_of_digits s acc < (acc + 1) * 10 ^ Z.of_nat (String.length s).
Proof.
  revert acc. induction s as [|c r IH]; intros acc Hs Ha.
  - simpl. lia.
  - cbn [all_chars] in Hs. apply andb_true_iff in Hs. destruct Hs as [Hc Hr].
    cbn [int_of_digits String.length].
    pose proof (digit_val_nonneg c Hc). pose proof (digit_val_le_9 c Hc).
    specialize (IH (10 * acc + digit_val c) Hr ltac:(lia)).
    rewrite Nat2Z.inj_succ, Z.pow_succ_r by lia.
    pose proof (Z.pow_pos_nonneg 10 (Z.of_nat (String.length r))
                  ltac:(lia) ltac:(lia)).
    nia.
Qed.

Lemma strip_prefix_app (key s : string) :
  PyStr.strip_prefix key (key ++ s) = Some s.
Proof.
  induction key as [|c k IH]; [reflexivity|].
  simpl. now rewrite Ascii.eqb_refl.
Qed.

Lemma take_while_app (p : ascii -> bool) (s tail : string) :
  all_chars p s = true -> stops p tail -> take_while p (s ++ tail) = s.
Proof.
  induction s as [|c r IH]; intros Hs Ht.
  - destruct tail as [|c t]; [reflexivity|]. simpl in *. now rewrite Ht.
  - cbn [all_chars] in Hs. apply andb_true_iff in Hs. destruct Hs as [Hc Hr].
    simpl. rewrite Hc. now rewrite IH.
Qed.

Lemma re_search_at_start (key : string) (p : ascii -> bool) (g tail : string) :
  all_chars p g = true -> g <> EmptyString -> stops p tail ->
  re_search key p (key ++ g ++ tail) = Some g.
Proof.
  intros Hg Hne Ht.
  destruct (key ++ g ++ tail) as [|c r] eqn:E; cbn [re_search];
    rewrite <- E, strip_prefix_app, take_while_app by assumption;
    destruct g; congruence.
Qed.

(** X6. A line [out_time_ms=<digits>] with at most 300 digits never fails: the
    elapsed time is the number of microseconds over a million, rounded to
    the nearest float, finite and not negative. *)
Theorem X6_microseconds_accepted (ds tail : string) :
  all_chars is_digit ds = true -> ds <> EmptyString ->
  (String.length ds <= 300)%nat -> stops is_digit tail ->
  done_seconds ("out_time_ms=" ++ ds ++ tail)
  = Some (ret (of_ratio (int_of_digits ds 0) 1000000))
  /\ nn (of_ratio (int_of_digits ds 0) 1000000)
  /\ of_ratio (int_of_digits ds 0) 1000000 <> S754_infinity false.
Proof.
  intros Hd Hne Hlen Ht.
  pose proof (int_of_digits_nonneg ds 0 Hd (Z.le_refl 0)) as H0.
  pose proof (int_of_digits_bound ds 0 Hd (Z.le_refl 0)) as Hb.
  assert (Hle : int_of_digits ds 0 <= 1000000 * max_float_Z).
  { assert (10 ^ Z.of_nat (String.length ds) <= 10 ^ 300)
      by (apply Z.pow_le_mono_r; lia).
    assert (10 ^ 300 <= 1000000 * max_float_Z)
      by (apply Z.leb_le; vm_compute; reflexivity).
    lia. }
  destruct (of_ratio_finite _ 1000000 H0 eq_refl Hle) as [Hn Hi].
  split; [|split; assumption].
  unfold done_seconds, re_us.
  rewrite (re_search_at_start "out_time_ms=" is_digit ds tail Hd Hne Ht).
  unfold int_of_str, int_truediv.
  replace (int_max_str_digits <? Z.of_nat (String.length ds)) with false
    by (symmetry; apply Z.ltb_ge; unfold int_max_str_digits; lia).
  cbn [bind ret raise].
  destruct (of_ratio (int_of_digits ds 0) 1000000) as [s|s| |s m e] eqn:E;
    try reflexivity.
  simpl in Hn. subst s. congruence.
Qed.

Lemma X6_microseconds_accepted_witness :
  done_seconds ("out_time_ms=" ++ "123456789" ++ "")
  = Some (ret (of_ratio (int_of_digits "123456789" 0) 1000000))
  /\ nn (of_ratio (int_of_digits "123456789" 0) 1000000)
  /\ of_ratio (int_of_digits "123456789" 0) 1000000 <> S754_infinity false.
Proof.
  apply (X6_microseconds_accepted "123456789" ""); try reflexivity.
  - discriminate.
  - simpl. lia.
Defined.

(** Beyond the interpreter's limit [int] refuses the capture: a line
    [out_time_ms=<digits>] with more than 4300 digits ends the pass with
    [ValueError], before any division. *)
Lemma overlong_capture_rejected (D : float) (last : Z) (ds tail : string) :
  all_chars is_digit ds = true -> stops is_digit tail ->
  int_max_str_digits < Z.of_nat (String.length ds) ->
  done_seconds ("out_time_ms=" ++ ds ++ tail) = Some (raise ValueError)
  /\ loop_body D last ("out_time_ms=" ++ ds ++ tail) = raise ValueError.
Proof.
  intros Hd Ht Hlen.
  assert (Hne : ds <> EmptyString)
    by (intros ->; unfold int_max_str_digits in Hlen; simpl in Hlen; lia).
  assert (Hs : done_seconds ("out_time_ms=" ++ ds ++ tail)
               = Some (raise ValueError)).
  { unfold done_seconds, re_us.
    rewrite (re_search_at_start "out_time_ms=" is_digit ds tail Hd Hne Ht).
    unfold int_of_str.
    replace (int_max_str_digits <? Z.of_nat (String.length ds)) with true
      by (symmetry; now apply Z.ltb_lt).
    reflexivity. }
  split; [exact Hs|]. unfold loop_body. rewrite Hs. reflexivity.
Qed.

(** X7. The two ends of the scale, for every positive duration: no elapsed
    time gives 0.0 and an elapsed time equal to the duration gives exactly
    100.0. *)
Theorem X7_percent_endpoints (D : float) :
  positive_finite D = true ->
  percent (S754_zero false) D = ret (S754_zero false)
  /\ percent D D = ret hundred.
Proof.
  intros HD. destruct D as [s|s| |[] mD eD]; try discriminate.
  split; [reflexivity|].
  rewrite (percent_pct mD eD). f_equal. unfold pct.
  pose proof (SFdiv_rounds mD eD mD eD) as Hr.
  pose proof (F2R_pos mD eD) as Hp.
  replace (F2R (Zpos mD) eD / F2R (Zpos mD) eD)%R
    with (F2R 4503599627370496 (-52)) in Hr.
  2:{ rewrite F2R_one. field. lra. }
  rewrite (rounds_to_exact _ _ _ one_bounded Hr). reflexivity.
Qed.

Lemma X7_percent_endpoints_witness :
  percent (S754_zero false) (of_Z 7) = ret (S754_zero false)
  /\ percent (of_Z 7) (of_Z 7) = ret hundred.
Proof. apply (X7_percent_endpoints (of_Z 7)). reflexivity. Defined.

End NumericExtras.

(** ** Strings and decimal text *)

Section StringExtras.

Import PyStr PyFloat Progress Spec Real Round Shapes.

Lemma sappend_nil_r (s : string) : s ++ "" = s.
Proof. induction s as [|c r IH]; simpl; congruence. Qed.

Lemma sappend_assoc (a b c : string) : (a ++ b) ++ c = a ++ (b ++ c).
Proof. induction a as [|x r IH]; simpl; congruence. Qed.

Lemma rev_append_twice (s a b : string) :
  rev_append (rev_append s a) b = rev_append a (s ++ b).
Proof.
  revert a b. induction s as [|c r IH]; intros a b; [reflexivity|].
  simpl. now rewrite IH.
Qed.

Lemma srev_involutive (s : string) : rev (rev s) = s.
Proof. unfold rev. rewrite rev_append_twice. simpl. apply sappend_nil_r. Qed.

Lemma rev_append_app (s acc : string) : rev_append s acc = rev s ++ acc.
Proof.
  unfold rev. revert acc. induction s as [|c r IH]; intros acc; [reflexivity|].
  simpl. rewrite IH, (IH (String c "")), sappend_assoc. reflexivity.
Qed.

Lemma srev_app (a b : string) : rev (a ++ b) = rev b ++ rev a.
Proof.
  induction a as [|c r IH]; simpl.
  - now rewrite sappend_nil_r.
  - unfold rev in *. simpl.
    rewrite (rev_append_app (r ++ b)), (rev_append_app r). fold (rev (r ++ b)).
    unfold rev in IH |- *. rewrite IH, sappend_assoc. reflexivity.
Qed.

Lemma all_chars_app (p : ascii -> bool) (a b : string) :
  all_chars p (a ++ b) = all_chars p a && all_chars p b.
Proof.
  induction a as [|c r IH]; simpl; [reflexivity|].
  now rewrite IH, andb_assoc.
Qed.

Lemma all_chars_rev (p : ascii -> bool) (s : string) :
  all_chars p s = true -> all_chars p (rev s) = true.
Proof. intros H. now apply all_chars_rev_append. Qed.

Lemma all_chars_impl (p q : ascii -> bool) (s : string) :
  (forall c, p c = true -> q c = true) ->
  all_chars p s = true -> all_chars q s = true.
Proof.
  intros Hpq. induction s as [|c r IH]; simpl; [reflexivity|].
  intros H. apply andb_true_iff in H. destruct H as [Hc Hr].
  now rewrite (Hpq c Hc), IH.
Qed.

(** *** [str.strip] *)

Lemma str_lstrip_spaces (a x : string) :
  all_chars Script.is_space a = true ->
  Script.str_lstrip (a ++ x) = Script.str_lstrip x.
Proof.
  induction a as [|c r IH]; intros H; [reflexivity|].
  cbn [all_chars] in H. apply andb_true_iff in H. destruct H as [Hc Hr].
  simpl. rewrite Hc. now apply IH.
Qed.

Lemma str_lstrip_stops (x : string) :
  stops Script.is_space x -> Script.str_lstrip x = x.
Proof. destruct x as [|c r]; simpl; [reflexivity|]. now intros ->. Qed.

Lemma str_lstrip_all (a : string) :
  all_chars Script.is_space a = true -> Script.str_lstrip a = "".
Proof.
  intros H. rewrite <- (sappend_nil_r a). now rewrite str_lstrip_spaces.
Qed.

(** [strip] takes the white space off both ends and nothing else: around a
    text that neither starts nor ends with white space it returns that
    text, and a text of white space only becomes empty. *)
Lemma str_strip_core (a core b : string) :
  all_chars Script.is_space a = true ->
  all_chars Script.is_space b = true ->
  stops Script.is_space core -> stops Script.is_space (rev core) ->
  Script.str_strip (a ++ core ++ b) = core.
Proof.
  intros Ha Hb Hf Hl. unfold Script.str_strip.
  rewrite str_lstrip_spaces by exact Ha.
  destruct core as [|c r].
  - simpl. rewrite (str_lstrip_all b Hb). reflexivity.
  - rewrite (str_lstrip_stops (String c r ++ b)) by exact Hf.
    rewrite srev_app, str_lstrip_spaces by now apply all_chars_rev.
    rewrite (str_lstrip_stops _ Hl). apply srev_involutive.
Qed.

(** *** [float] on decimal text *)

(** A character of a timestamp is no blank, no sign, no underscore and no
    letter. *)
Lemma hms_char_plain :
  forall_ascii (fun c =>
    implb (is_hms_char c)
      (negb (is_float_space c)
       && negb (Ascii.eqb c "-") && negb (Ascii.eqb c "+")
       && negb (Ascii.eqb c "_")
       && negb (Ascii.eqb c "e") && negb (Ascii.eqb c "E")
       && negb (Ascii.eqb c "o")
       && negb (Ascii.eqb (ascii_fold c) "i")
       && negb (Ascii.eqb (ascii_fold c) "n"))) = true.
Proof. vm_compute. reflexivity. Qed.

Lemma hms_char_not_space (c : ascii) :
  is_hms_char c = true -> is_float_space c = false.
Proof.
  intros H. pose proof (forall_ascii_spec _ hms_char_plain c) as Hf.
  cbv beta in Hf. rewrite H in Hf. simpl in Hf.
  repeat (apply andb_true_iff in Hf; destruct Hf as [Hf ?]).
  now apply negb_true_iff.
Qed.

Lemma lstrip_hms (s : string) :
  all_chars is_hms_char s = true -> lstrip s = s.
Proof.
  destruct s as [|c r]; [reflexivity|]. cbn [all_chars]. intros H.
  apply andb_true_iff in H. destruct H as [Hc _].
  simpl. now rewrite (hms_char_not_space c Hc).
Qed.

Lemma strip_hms (s : string) :
  all_chars is_hms_char s = true -> strip s = s.
Proof.
  intros H. unfold strip.
  rewrite (lstrip_hms s H), (lstrip_hms (rev s)) by now apply all_chars_rev.
  apply srev_involutive.
Qed.

(** On a text of digits and points [float] is the parse of the number. *)
Lemma of_string_plain (s : string) :
  all_chars is_hms_char s = true -> s <> EmptyString ->
  of_string s
  = match parse_number s with
    | Some (n, k, r1) =>
        match parse_exponent r1 with
        | (x, EmptyString) => ret (of_decimal n (x - k))
        | (_, String _ _) => raise ValueError
        end
    | None => raise ValueError
    end.
Proof.
  intros Hs Hne. unfold of_string. rewrite (strip_hms s Hs).
  destruct s as [|c t]; [congruence|].
  cbn [all_chars] in Hs. apply andb_true_iff in Hs. destruct Hs as [Hc Ht].
  pose proof (forall_ascii_spec _ hms_char_plain c) as Hf.
  cbv beta in Hf. rewrite Hc in Hf. simpl in Hf.
  repeat (apply andb_true_iff in Hf; destruct Hf as [Hf ?]).
  repeat match goal with
         | H : negb _ = true |- _ => apply negb_true_iff in H
         end.
  assert (Hsign : parse_sign (String c t) = (false, String c t)).
  { destruct c as [[] [] [] [] [] [] [] []]; try reflexivity; discriminate. }
  rewrite Hsign.
  assert (Hinf : caseless_eqb (String c t) "inf"
                 || caseless_eqb (String c t) "infinity" = false).
  { simpl. change (ascii_fold "i") with "i"%char.
    match goal with H : Ascii.eqb (ascii_fold c) "i" = false |- _ =>
      rewrite H end. reflexivity. }
  rewrite Hinf.
  assert (Hnan : caseless_eqb (String c t) "nan" = false).
  { simpl. change (ascii_fold "n") with "n"%char.
    match goal with H : Ascii.eqb (ascii_fold c) "n" = false |- _ =>
      rewrite H end. reflexivity. }
  rewrite Hnan.
  destruct (parse_number (String c t)) as [[[n k] r1]|]; [|reflexivity].
  destruct (parse_exponent r1) as [x [|c2 r2]]; reflexivity.
Qed.

Lemma digitpart_tail_digits (ds rest : string) (acc n : Z) :
  all_chars is_digit ds = true ->
  stops (fun c => is_digit c || Ascii.eqb c "_") rest ->
  digitpart_tail (ds ++ rest) acc n
  = (int_of_digits ds acc, n + Z.of_nat (String.length ds), rest).
Proof.
  revert acc n. induction ds as [|c r IH]; intros acc n Hd Hr.
  - cbn [append int_of_digits String.length]. rewrite Z.add_0_r.
    destruct rest as [|c t]; [reflexivity|].
    simpl in Hr. apply orb_false_iff in Hr. destruct Hr as [H1 H2].
    cbn [digitpart_tail]. now rewrite H1, H2.
  - cbn [all_chars] in Hd. apply andb_true_iff in Hd. destruct Hd as [Hc Hd].
    cbn [append digitpart_tail int_of_digits String.length]. rewrite Hc.
    rewrite (IH _ _ Hd Hr). f_equal. f_equal. lia.
Qed.

Lemma digitpart_digits (ds rest : string) (acc n : Z) :
  all_chars is_digit ds = true -> ds <> EmptyString ->
  stops (fun c => is_digit c || Ascii.eqb c "_") rest ->
  digitpart (ds ++ rest) acc n
  = Some (int_of_digits ds acc, n + Z.of_nat (String.length ds), rest).
Proof.
  intros Hd Hne Hr. destruct ds as [|c r]; [congruence|].
  cbn [all_chars] in Hd. apply andb_true_iff in Hd. destruct Hd as [Hc Hd].
  cbn [append digitpart int_of_digits String.length]. rewrite Hc.
  rewrite (digitpart_tail_digits r rest _ _ Hd Hr). do 3 f_equal. lia.
Qed.

Lemma int_of_digits_app (a b : string) (acc : Z) :
  int_of_digits (a ++ b) acc = int_of_digits b (int_of_digits a acc).
Proof.
  revert acc. induction a as [|c r IH]; intros acc; [reflexivity|].
  simpl. apply IH.
Qed.

Lemma digit_is_hms (c : ascii) : is_digit c = true -> is_hms_char c = true.
Proof. unfold is_hms_char. now intros ->. Qed.

(** [float("<digits>")] and [float("<digits>.<digits>")]. *)
Lemma of_string_integer (a : string) :
  all_chars is_digit a = true -> a <> EmptyString ->
  of_string a = ret (of_decimal (int_of_digits a 0) 0).
Proof.
  intros Ha Hne.
  rewrite of_string_plain;
    [|exact (all_chars_impl _ _ a digit_is_hms Ha)|exact Hne].
  unfold parse_number.
  rewrite <- (sappend_nil_r a) at 1.
  rewrite (digitpart_digits a "" 0 0 Ha Hne I). reflexivity.
Qed.

Lemma of_string_decimal (a b : string) :
  all_chars is_digit a = true -> a <> EmptyString ->
  all_chars is_digit b = true -> b <> EmptyString ->
  of_string (a ++ "." ++ b)
  = ret (of_decimal (int_of_digits (a ++ b) 0) (- Z.of_nat (String.length b))).
Proof.
  intros Ha Hna Hb Hnb.
  rewrite of_string_plain.
  - unfold parse_number.
    rewrite (digitpart_digits a ("." ++ b) 0 0 Ha Hna eq_refl).
    cbn [append]. rewrite <- (sappend_nil_r b) at 1.
    rewrite (digitpart_digits b "" _ 0 Hb Hnb I).
    cbn [parse_exponent]. rewrite int_of_digits_app. reflexivity.
  - rewrite !all_chars_app.
    rewrite (all_chars_impl _ _ a digit_is_hms Ha).
    rewrite (all_chars_impl _ _ b digit_is_hms Hb). reflexivity.
  - destruct a; [congruence|discriminate].
Qed.

End StringExtras.

(** ** Accepted text *)

Section AcceptedText.

Import PyStr PyFloat Progress Spec Real Round Shapes Script.

Lemma stops_app (p q : ascii -> bool) (x y : string) :
  (forall c, p c = true -> q c = false) ->
  all_chars p x = true -> x <> EmptyString -> stops q (x ++ y).
Proof.
  intros Hpq Hx Hne. destruct x as [|c r]; [congruence|].
  cbn [all_chars] in Hx. apply andb_true_iff in Hx. destruct Hx as [Hc _].
  simpl. now apply Hpq.
Qed.

Lemma digit_not_space (c : ascii) : is_digit c = true -> is_space c = false.
Proof.
  revert c.
  assert (H : forall_ascii (fun c => implb (is_digit c) (negb (is_space c)))
              = true) by (vm_compute; reflexivity).
  intros c Hc. pose proof (forall_ascii_spec _ H c) as Hf. cbv beta in Hf.
  rewrite Hc in Hf. simpl in Hf. now apply negb_true_iff.
Qed.

Lemma rev_nonempty (s : string) : s <> EmptyString -> rev s <> EmptyString.
Proof.
  intros Hne Hr. apply Hne. rewrite <- (srev_involutive s), Hr. reflexivity.
Qed.

Lemma of_decimal_rounds (n : Z) (k : nat) :
  0 < n -> (0 < k)%nat ->
  rounds_to (IZR n / IZR (10 ^ Z.of_nat k)) (of_decimal n (- Z.of_nat k)).
Proof.
  intros Hn Hk. unfold of_decimal.
  destruct (- Z.of_nat k) as [|p|p] eqn:E; try lia.
  assert (Hp : Z.of_nat k = Zpos p) by lia. rewrite Hp.
  assert (Hb : 0 < 10 ^ Zpos p) by (apply Z.pow_pos_nonneg; lia).
  pose proof (div_core_rounds n 0 (10 ^ Zpos p) 0 Hn Hb) as Hr.
  rewrite !F2R_int in Hr. unfold of_ratio.
  destruct n as [|q|q]; try lia. exact Hr.
Qed.

(** X8. [get_duration] on the text [ffprobe] prints, digits, a point, digits
    and the end of the line: the duration is that decimal number rounded
    to the nearest float, and it is not negative. *)
Theorem X8_get_duration_decimal (w : World) (path a b ws : string) :
  check_output w (duration_cmd path) = inr (a ++ "." ++ b ++ ws) ->
  all_chars is_digit a = true -> a <> EmptyString ->
  all_chars is_digit b = true -> b <> EmptyString ->
  all_chars is_space ws = true ->
  let n := int_of_digits (a ++ b) 0 in
  let k := String.length b in
  get_duration w path
  = ([EvCheckOutput (duration_cmd path)], ret (of_decimal n (- Z.of_nat k)))
  /\ nn (of_decimal n (- Z.of_nat k))
  /\ (0 < n ->
      rounds_to (IZR n / IZR (10 ^ Z.of_nat k)) (of_decimal n (- Z.of_nat k))).
Proof.
  intros Hout Ha Hna Hb Hnb Hws n k.
  assert (Hab : all_chars is_digit (a ++ b) = true)
    by (rewrite all_chars_app, Ha, Hb; reflexivity).
  assert (Hn0 : 0 <= n) by (apply int_of_digits_nonneg; [exact Hab|lia]).
  split; [|split].
  - unfold get_duration, call_check_output, io_bind, io_lift.
    rewrite Hout.
    assert (Hs : str_strip (a ++ "." ++ b ++ ws) = a ++ "." ++ b).
    { replace (a ++ "." ++ b ++ ws) with ("" ++ (a ++ "." ++ b) ++ ws)
        by (cbn [append]; rewrite !sappend_assoc; reflexivity).
      apply str_strip_core; [reflexivity|exact Hws| |].
      - exact (stops_app _ _ a _ digit_not_space Ha Hna).
      - rewrite srev_app, srev_app.
        rewrite sappend_assoc.
        apply (stops_app is_digit).
        + exact digit_not_space.
        + now apply all_chars_rev.
        + now apply rev_nonempty. }
    rewrite Hs, (of_string_decimal a b Ha Hna Hb Hnb). reflexivity.
  - now apply of_decimal_nn.
  - intros Hn. apply of_decimal_rounds; [exact Hn|].
    unfold k. destruct b; [congruence|simpl; lia].
Qed.

Lemma X8_get_duration_decimal_witness :
  get_duration (world_of ("5423" ++ "." ++ "310000" ++ String "010" "")
                  "aac" [] 0) "film.mkv"
  = ([EvCheckOutput (duration_cmd "film.mkv")],
     ret (of_decimal (int_of_digits ("5423" ++ "310000") 0)
            (- Z.of_nat (String.length "310000"))))
  /\ nn (of_decimal (int_of_digits ("5423" ++ "310000") 0)
           (- Z.of_nat (String.length "310000")))
  /\ (0 < int_of_digits ("5423" ++ "310000") 0 ->
      rounds_to (IZR (int_of_digits ("5423" ++ "310000") 0)
                 / IZR (10 ^ Z.of_nat (String.length "310000")))
        (of_decimal (int_of_digits ("5423" ++ "310000") 0)
           (- Z.of_nat (String.length "310000")))).
Proof.
  apply (X8_get_duration_decimal
           (world_of ("5423" ++ "." ++ "310000" ++ String "010" "")
              "aac" [] 0)
           "film.mkv" "5423" "310000" (String "010" ""));
    try reflexivity; discriminate.
Defined.

(** *** Timestamps *)

Lemma re_search_skip (k0 : ascii) (k' : string) (p : ascii -> bool)
    (c : ascii) (r : string) :
  Ascii.eqb k0 c = false ->
  re_search (String k0 k') p (String c r) = re_search (String k0 k') p r.
Proof. intros H. cbn [re_search strip_prefix]. now rewrite H. Qed.

Lemma re_search_skip_all (k0 : ascii) (k' : string) (p : ascii -> bool)
    (x t : string) :
  all_chars (fun c => negb (Ascii.eqb k0 c)) x = true ->
  re_search (String k0 k') p (x ++ t) = re_search (String k0 k') p t.
Proof.
  induction x as [|c r IH]; intros H; [reflexivity|].
  cbn [all_chars] in H. apply andb_true_iff in H. destruct H as [Hc Hr].
  apply negb_true_iff in Hc.
  cbn [append]. rewrite re_search_skip by exact Hc. now apply IH.
Qed.

Lemma hms_char_not_o (c : ascii) :
  is_hms_char c = true -> negb (Ascii.eqb "o" c) = true.
Proof.
  revert c.
  assert (H : forall_ascii (fun c =>
                implb (is_hms_char c) (negb (Ascii.eqb "o" c))) = true)
    by (vm_compute; reflexivity).
  intros c Hc. pose proof (forall_ascii_spec _ H c) as Hf. cbv beta in Hf.
  now rewrite Hc in Hf.
Qed.

Lemma re_us_timestamp (ts tail : string) :
  all_chars is_hms_char ts = true -> re_us tail = None ->
  re_us ("out_time=" ++ ts ++ tail) = None.
Proof.
  intros Hts Ht. unfold re_us in *.
  change ("out_time=" ++ ts ++ tail)
    with (String "o" ("ut_time=" ++ ts ++ tail)).
  assert (H0 : forall r,
             re_search "out_time_ms=" is_digit (String "o" ("ut_time=" ++ r))
             = re_search "out_time_ms=" is_digit ("ut_time=" ++ r)).
  { intros r. reflexivity. }
  rewrite H0.
  rewrite (re_search_skip_all "o" "ut_time_ms=" is_digit "ut_time=")
    by reflexivity.
  rewrite re_search_skip_all; [exact Ht|].
  exact (all_chars_impl _ _ ts hms_char_not_o Hts).
Qed.

Lemma digits_no_colon (x : string) :
  all_chars is_digit x = true -> count_colons x = 0%nat.
Proof.
  induction x as [|c r IH]; [reflexivity|]. cbn [all_chars count_colons].
  intros H. apply andb_true_iff in H. destruct H as [Hc Hr].
  destruct (Ascii.eqb_spec c ":") as [->|_]; [discriminate Hc|now apply IH].
Qed.

Lemma count_colons_app (x y : string) :
  count_colons (x ++ y) = (count_colons x + count_colons y)%nat.
Proof.
  induction x as [|c r IH]; [reflexivity|]. cbn [append count_colons].
  destruct (Ascii.eqb c ":"); simpl; now rewrite IH.
Qed.

Lemma split_colon_one (x : string) :
  count_colons x = 0%nat -> split_colon x = [x].
Proof.
  induction x as [|c r IH]; [reflexivity|]. cbn [count_colons split_colon].
  destruct (Ascii.eqb c ":"); [discriminate|].
  intros H. now rewrite (IH H).
Qed.

Lemma split_colon_app (x y : string) :
  count_colons x = 0%nat ->
  split_colon (x ++ ":" ++ y) = x :: split_colon y.
Proof.
  induction x as [|c r IH]; [reflexivity|]. cbn [count_colons].
  destruct (Ascii.eqb c ":") eqn:E; [discriminate|].
  intros H. cbn [append split_colon]. rewrite E.
  change (r ++ String ":" y) with (r ++ ":" ++ y). now rewrite (IH H).
Qed.

(** X9. A line [out_time=H:M:S.f], each of the four fields a run of digits,
    never fails: the elapsed time is [H * 3600 + M * 60 + S.f] in float
    arithmetic, and it is not negative. *)
Theorem X9_timestamp_accepted (h m s f tail : string) :
  all_chars is_digit h = true -> h <> EmptyString ->
  all_chars is_digit m = true -> m <> EmptyString ->
  all_chars is_digit s = true -> s <> EmptyString ->
  all_chars is_digit f = true -> f <> EmptyString ->
  stops is_hms_char tail -> re_us tail = None ->
  let E :=
    fadd (fadd (fmul (of_decimal (int_of_digits h 0) 0) (of_Z 3600))
               (fmul (of_decimal (int_of_digits m 0) 0) (of_Z 60)))
         (of_decimal (int_of_digits (s ++ f) 0)
            (- Z.of_nat (String.length f))) in
  done_seconds ("out_time=" ++ (h ++ ":" ++ m ++ ":" ++ s ++ "." ++ f) ++ tail)
  = Some (ret E)
  /\ nn E.
Proof.
  intros Hh Hnh Hm Hnm Hs Hns Hf Hnf Ht Hus E.
  set (ts := h ++ ":" ++ m ++ ":" ++ s ++ "." ++ f).
  assert (Hts : all_chars is_hms_char ts = true).
  { unfold ts. rewrite !all_chars_app.
    rewrite (all_chars_impl _ _ h digit_is_hms Hh).
    rewrite (all_chars_impl _ _ m digit_is_hms Hm).
    rewrite (all_chars_impl _ _ s digit_is_hms Hs).
    rewrite (all_chars_impl _ _ f digit_is_hms Hf). reflexivity. }
  assert (Hd : done_seconds ("out_time=" ++ ts ++ tail) = Some (ret E)).
  { unfold done_seconds. rewrite (re_us_timestamp ts tail Hts Hus).
    unfold re_hms.
    rewrite (re_search_at_start "out_time=" is_hms_char ts tail Hts);
      [|unfold ts; destruct h; [congruence|discriminate]|exact Ht].
    f_equal. unfold hms_seconds, ts.
    rewrite (split_colon_app h _ (digits_no_colon h Hh)).
    rewrite (split_colon_app m _ (digits_no_colon m Hm)).
    rewrite split_colon_one.
    2:{ rewrite !count_colons_app, (digits_no_colon s Hs),
          (digits_no_colon f Hf). reflexivity. }
    rewrite (of_string_integer h Hh Hnh), (of_string_integer m Hm Hnm),
      (of_string_decimal s f Hs Hns Hf Hnf).
    reflexivity. }
  split; [exact Hd|].
  exact (done_seconds_nn _ _ Hd).
Qed.

Lemma X9_timestamp_accepted_witness :
  done_seconds ("out_time=" ++ ("01" ++ ":" ++ "02" ++ ":" ++ "03" ++ "." ++ "500000")
                ++ String "010" "")
  = Some (ret
      (fadd (fadd (fmul (of_decimal (int_of_digits "01" 0) 0) (of_Z 3600))
                  (fmul (of_decimal (int_of_digits "02" 0) 0) (of_Z 60)))
            (of_decimal (int_of_digits ("03" ++ "500000") 0)
               (- Z.of_nat (String.length "500000")))))
  /\ nn (fadd (fadd (fmul (of_decimal (int_of_digits "01" 0) 0) (of_Z 3600))
                    (fmul (of_decimal (int_of_digits "02" 0) 0) (of_Z 60)))
              (of_decimal (int_of_digits ("03" ++ "500000") 0)
                 (- Z.of_nat (String.length "500000")))).
Proof.
  apply (X9_timestamp_accepted "01" "02" "03" "500000" (String "010" ""));
    try reflexivity; discriminate.
Defined.

End AcceptedText.

(** ** The trace of a run *)

Section ScriptExtras.

Import PyStr PyFloat Progress Spec Real Round Shapes Script Main.

(** Every run is one of seven: a failure at one of the five steps before
    the loop, a failure of the loop, or completion. *)
Lemma remux_cases (w : World) (src : string) :
  (exists e, check_output w (duration_cmd src) = inl e
     /\ remux_with_progress w src = ([EvCheckOutput (duration_cmd src)], inl e))
  \/ (exists dout, check_output w (duration_cmd src) = inr dout /\
     ((exists e, of_string (str_strip dout) = inl e
         /\ remux_with_progress w src
            = ([EvCheckOutput (duration_cmd src)], inl e))
      \/ exists D, of_string (str_strip dout) = inr D /\
     ((exists e, check_output w (field_cmd src "a:0" "codec_name") = inl e
         /\ remux_with_progress w src
            = ([EvCheckOutput (duration_cmd src);
                EvCheckOutput (field_cmd src "a:0" "codec_name")], inl e))
      \/ exists aout,
           check_output w (field_cmd src "a:0" "codec_name") = inr aout /\
     ((exists e, check_output w (field_cmd src "v:0" "codec_name") = inl e
         /\ remux_with_progress w src
            = ([EvCheckOutput (duration_cmd src);
                EvCheckOutput (field_cmd src "a:0" "codec_name");
                EvCheckOutput (field_cmd src "v:0" "codec_name")], inl e))
      \/ exists vout,
           check_output w (field_cmd src "v:0" "codec_name") = inr vout /\
     ((exists e,
         popen w (build_ffmpeg_cmd src (fst (splitext src) ++ ".mp4")
                    (str_strip aout) (str_strip vout)) = inl e
         /\ remux_with_progress w src = (prelude src aout vout, inl e))
      \/ exists lines rc,
         popen w (build_ffmpeg_cmd src (fst (splitext src) ++ ".mp4")
                    (str_strip aout) (str_strip vout)) = inr (lines, rc) /\
     ((exists e, snd (loop D (-1) lines) = inl e
         /\ remux_with_progress w src
            = ((prelude src aout vout
                ++ map EvProgress (fst (loop D (-1) lines)))%list, inl e))
      \/ (exists last, snd (loop D (-1) lines) = inr last)
         /\ remux_with_progress w src
            = ((prelude src aout vout
                ++ map EvProgress (fst (loop D (-1) lines))
                ++ [EvWait;
                    EvStatus (rc =? 0) (fst (splitext src) ++ ".mp4")])%list,
               inl (SystemExit rc)))))))).
Proof.
  unfold remux_with_progress, get_duration, detect_audio_codec,
    detect_video_codec, ffprobe_field, call_check_output, call_popen,
    progress_loop, io_bind, io_lift, io_ret, io_emit, ret, raise, prelude.
  destruct (check_output w (duration_cmd src)) as [e|dout];
    [left; now exists e|right; exists dout; split; [reflexivity|]].
  destruct (of_string (str_strip dout)) as [e|D];
    [left; now exists e|right; exists D; split; [reflexivity|]].
  destruct (check_output w (field_cmd src "a:0" "codec_name")) as [e|aout];
    [left; now exists e|right; exists aout; split; [reflexivity|]].
  destruct (check_output w (field_cmd src "v:0" "codec_name")) as [e|vout];
    [left; now exists e|right; exists vout; split; [reflexivity|]].
  cbv beta iota zeta.
  destruct (popen w _) as [e|[lines rc]];
    [left; now exists e|right; exists lines, rc; split; [reflexivity|]].
  destruct (loop D (-1) lines) as [outs [e|last]]; cbv beta iota zeta.
  - left. exists e. split; [reflexivity|]. cbn [fst]. reflexivity.
  - right. split; [now exists last|]. cbn [fst].
    rewrite ?app_nil_r, <- ?app_assoc. reflexivity.
Qed.

Ltac run_cases w src :=
  let H := fresh "Hrun" in
  pose proof (remux_cases w src) as H;
  repeat match type of H with
         | _ \/ _ => destruct H as [H|H]
         | exists _, _ => let x := fresh "x" in destruct H as [x H]
         | _ /\ _ => let H' := fresh "Hc" in destruct H as [H' H]
         end.

Lemma filter_popen_progress (outs : list float) :
  filter is_popen (map EvProgress outs) = [].
Proof. induction outs; simpl; auto. Qed.

Lemma in_progress_not (ev : event) (outs : list float) :
  In ev (map EvProgress outs) -> is_progress ev = true.
Proof.
  intros H. apply in_map_iff in H. destruct H as (p & <- & _). reflexivity.
Qed.

Lemma trace_popen (w : World) (src : string) :
  (List.length (filter is_popen (fst (remux_with_progress w src))) <= 1)%nat
  /\ forall cmd,
       In (EvPopen cmd) (fst (remux_with_progress w src)) ->
       exists dout D aout vout,
         check_output w (duration_cmd src) = inr dout
         /\ of_string (str_strip dout) = inr D
         /\ check_output w (field_cmd src "a:0" "codec_name") = inr aout
         /\ check_output w (field_cmd src "v:0" "codec_name") = inr vout
         /\ cmd = build_ffmpeg_cmd src (fst (splitext src) ++ ".mp4")
                    (str_strip aout) (str_strip vout)
         /\ In (EvCodecs (or_unknown (str_strip aout))
                  (or_unknown (str_strip vout)))
              (fst (remux_with_progress w src)).
Proof.
  run_cases w src; rewrite Hrun; cbn [fst]; unfold prelude;
    rewrite ?filter_app, ?filter_popen_progress; cbn [filter is_popen app List.length];
    (split; [lia|]); intros cmd Hin;
    rewrite ?in_app_iff in Hin; cbn [In] in Hin;
    repeat match goal with
           | H : _ \/ _ |- _ => destruct H
           | H : False |- _ => contradiction
           | H : In _ (_ ++ _) |- _ => apply in_app_or in H; cbn [In] in H
           | H : In _ (map EvProgress _) |- _ =>
               apply in_progress_not in H; discriminate H
           | H : _ = EvPopen _ |- _ => (discriminate H || (inversion H; clear H))
           end;
    try (do 4 eexists; repeat split; try (eassumption || reflexivity);
         cbn [In]; auto 10).
Qed.

(** X10. [ffmpeg] is started at most once, and only after the duration was
    parsed and both codec queries were answered; its command line is the
    one built from the source path, the derived output path and the
    stripped answers. *)
Theorem X10_ffmpeg_started_once_after_probes (w : World) (src : string) :
  (List.length (filter is_popen (fst (remux_with_progress w src))) <= 1)%nat
  /\ forall cmd,
       In (EvPopen cmd) (fst (remux_with_progress w src)) ->
       exists dout D aout vout,
         check_output w (duration_cmd src) = inr dout
         /\ of_string (str_strip dout) = inr D
         /\ check_output w (field_cmd src "a:0" "codec_name") = inr aout
         /\ check_output w (field_cmd src "v:0" "codec_name") = inr vout
         /\ cmd = build_ffmpeg_cmd src (fst (splitext src) ++ ".mp4")
                    (str_strip aout) (str_strip vout).
Proof.
  destruct (trace_popen w src) as [H1 H2]. split; [exact H1|].
  intros cmd Hin.
  destruct (H2 cmd Hin) as (dout & D & aout & vout & A & B & C & E & F & _).
  now exists dout, D, aout, vout.
Qed.

(** X11. The status line is printed only by a run that ends in [sys.exit]: it
    is then the last thing printed, it names the derived output path and
    it says "completed" exactly when the exit code is 0. *)
Theorem X11_status_only_on_completion (w : World) (src : string) (ok : bool)
    (dst : string) :
  In (EvStatus ok dst) (fst (remux_with_progress w src)) ->
  exists rc,
    snd (remux_with_progress w src) = inl (SystemExit rc)
    /\ ok = (rc =? 0)
    /\ dst = fst (splitext src) ++ ".mp4"
    /\ last (fst (remux_with_progress w src)) EvWait = EvStatus ok dst.
Proof.
  run_cases w src; rewrite Hrun; cbn [fst snd]; unfold prelude; intros Hin;
    rewrite ?in_app_iff in Hin; cbn [In] in Hin;
    repeat match goal with
           | H : _ \/ _ |- _ => destruct H
           | H : False |- _ => contradiction
           | H : In _ (_ ++ _) |- _ => apply in_app_or in H; cbn [In] in H
           | H : In _ (map EvProgress _) |- _ =>
               apply in_progress_not in H; discriminate H
           | H : _ = EvStatus _ _ |- _ => (discriminate H || (inversion H; clear H))
           end.
  subst. eexists. repeat split.
  match goal with
  | |- context [[EvWait; ?st]] => change [EvWait; st] with ([EvWait] ++ [st])%list
  end.
  rewrite !app_assoc. apply last_last.
Qed.

Lemma X11_status_only_on_completion_witness :
  exists rc,
    snd (remux_with_progress
           (world_of "10.0" "aac" ["out_time_ms=5000000"] 3) "film.mkv")
    = inl (SystemExit rc)
    /\ false = (rc =? 0)
    /\ "film.mp4" = fst (splitext "film.mkv") ++ ".mp4"
    /\ last (fst (remux_with_progress
                    (world_of "10.0" "aac" ["out_time_ms=5000000"] 3)
                    "film.mkv")) EvWait
       = EvStatus false "film.mp4".
Proof.
  apply (X11_status_only_on_completion
           (world_of "10.0" "aac" ["out_time_ms=5000000"] 3) "film.mkv"
           false "film.mp4").
  vm_compute. auto 10.
Defined.

(** X12. An exception in the loop ends the run with that exception: what was
    printed before stays printed, but the script neither waits for
    [ffmpeg] nor prints a status line. *)
Theorem X12_loop_exception_aborts (w : World) (src dout aout vout : string)
    (D : float) (lines : list string) (rc : Z) (e : exn) :
  check_output w (duration_cmd src) = inr dout ->
  of_string (str_strip dout) = inr D ->
  check_output w (field_cmd src "a:0" "codec_name") = inr aout ->
  check_output w (field_cmd src "v:0" "codec_name") = inr vout ->
  popen w (build_ffmpeg_cmd src (fst (splitext src) ++ ".mp4")
             (str_strip aout) (str_strip vout)) = inr (lines, rc) ->
  snd (loop D (-1) lines) = inl e ->
  remux_with_progress w src
  = ((prelude src aout vout ++ map EvProgress (fst (loop D (-1) lines)))%list,
     inl e)
  /\ ~ In EvWait (fst (remux_with_progress w src))
  /\ (forall ok dst, ~ In (EvStatus ok dst) (fst (remux_with_progress w src)))
  /\ arithmetic_error e.
Proof.
  intros Hd HD Ha Hv Hp Hl.
  assert (Hrun : remux_with_progress w src
          = ((prelude src aout vout
              ++ map EvProgress (fst (loop D (-1) lines)))%list, inl e)).
  { unfold remux_with_progress, get_duration, detect_audio_codec,
      detect_video_codec, ffprobe_field, call_check_output, call_popen,
      progress_loop, io_bind, io_lift, io_ret, io_emit, ret, raise, prelude.
    rewrite Hd, HD, Ha, Hv. cbv beta iota zeta. rewrite Hp.
    destruct (loop D (-1) lines) as [outs r]. cbn [snd] in Hl. subst r.
    cbv beta iota zeta. cbn [fst]. reflexivity. }
  split; [exact Hrun|]. rewrite Hrun. cbn [fst]. unfold prelude.
  split; [|split].
  - rewrite in_app_iff. cbn [In].
    intros [H|H];
      [repeat (destruct H as [H|H]; [discriminate H|]); exact H
      |apply in_progress_not in H; discriminate H].
  - intros ok dst. rewrite in_app_iff. cbn [In].
    intros [H|H];
      [repeat (destruct H as [H|H]; [discriminate H|]); exact H
      |apply in_progress_not in H; discriminate H].
  - exact (loop_error D lines (-1) e Hl).
Qed.

Lemma X12_loop_exception_aborts_witness :
  remux_with_progress
    (world_of "10.0" "aac" ["out_time_ms=5000000"; "out_time=1:2"] 0)
    "film.mkv"
  = ((prelude "film.mkv" "aac" "aac"
      ++ map EvProgress
           (fst (loop (of_Z 10) (-1) ["out_time_ms=5000000"; "out_time=1:2"])))%list,
     inl ValueError)
  /\ ~ In EvWait
        (fst (remux_with_progress
                (world_of "10.0" "aac"
                   ["out_time_ms=5000000"; "out_time=1:2"] 0) "film.mkv"))
  /\ (forall ok dst,
        ~ In (EvStatus ok dst)
            (fst (remux_with_progress
                    (world_of "10.0" "aac"
                       ["out_time_ms=5000000"; "out_time=1:2"] 0) "film.mkv")))
  /\ arithmetic_error ValueError.
Proof.
  apply (X12_loop_exception_aborts
           (world_of "10.0" "aac" ["out_time_ms=5000000"; "out_time=1:2"] 0)
           "film.mkv" "10.0" "aac" "aac" (of_Z 10)
           ["out_time_ms=5000000"; "out_time=1:2"] 0 ValueError);
    vm_compute; reflexivity.
Defined.

End ScriptExtras.

(** ** Output paths *)

Section PathExtras.

Import PyStr PyFloat Progress Spec Real Round Shapes Script Main.

Lemma slength_app (a b : string) :
  String.length (a ++ b) = (String.length a + String.length b)%nat.
Proof. induction a as [|c r IH]; simpl; [reflexivity|now rewrite IH]. Qed.

Lemma substring_prefix (a b : string) :
  substring 0 (String.length a) (a ++ b) = a.
Proof.
  induction a as [|c r IH]; simpl.
  - now destruct b.
  - now rewrite IH.
Qed.

Lemma substring_skip (a b : string) (n m : nat) :
  substring (String.length a + n) m (a ++ b) = substring n m b.
Proof. induction a as [|c r IH]; simpl; [reflexivity|exact IH]. Qed.

Lemma substring_all (s : string) : substring 0 (String.length s) s = s.
Proof. induction s as [|c r IH]; simpl; [reflexivity|now rewrite IH]. Qed.

Lemma substring_split (s : string) (n : nat) :
  (n <= String.length s)%nat ->
  substring 0 n s ++ substring n (String.length s - n) s = s.
Proof.
  revert n. induction s as [|c r IH]; intros n Hn.
  - simpl in Hn. assert (n = 0%nat) by lia. subst n. reflexivity.
  - destruct n as [|n].
    + cbn [substring]. cbn [String.length Nat.sub append].
      now rewrite substring_all.
    + cbn [substring String.length Nat.sub append].
      rewrite IH by (simpl in Hn; lia). reflexivity.
Qed.

Lemma rfind_from_bound (c : ascii) (s : string) (i : Z) :
  0 <= i ->
  rfind_from c s i = -1
  \/ i <= rfind_from c s i < i + Z.of_nat (String.length s).
Proof.
  revert i. induction s as [|a r IH]; intros i Hi; [now left|].
  cbn [rfind_from String.length].
  destruct (IH (i + 1) ltac:(lia)) as [E|B].
  - rewrite E. cbn [Z.leb Z.compare].
    destruct (Ascii.eqb a c); [right; lia|now left].
  - destruct (Z.leb_spec 0 (rfind_from c r (i + 1))); [right; lia|lia].
Qed.

Lemma rfind_from_lacks (c : ascii) (s : string) (i : Z) :
  lacks c s = true -> rfind_from c s i = -1.
Proof.
  unfold lacks. revert i. induction s as [|a r IH]; intros i H; [reflexivity|].
  cbn [all_chars] in H. apply andb_true_iff in H. destruct H as [Ha Hr].
  cbn [rfind_from]. rewrite (IH _ Hr). cbn [Z.leb Z.compare].
  apply negb_true_iff in Ha. now rewrite Ha.
Qed.

Lemma rfind_from_last (c : ascii) (s t : string) (i : Z) :
  0 <= i -> lacks c t = true ->
  rfind_from c (s ++ String c t) i = i + Z.of_nat (String.length s).
Proof.
  intros Hi Ht. revert i Hi. induction s as [|a r IH]; intros i Hi.
  - cbn [append rfind_from String.length]. rewrite (rfind_from_lacks c t _ Ht).
    cbn [Z.leb Z.compare]. rewrite Ascii.eqb_refl. simpl. lia.
  - cbn [append rfind_from String.length]. rewrite IH by lia.
    destruct (Z.leb_spec 0 (i + 1 + Z.of_nat (String.length r))); lia.
Qed.

Lemma lacks_app (c : ascii) (a b : string) :
  lacks c (a ++ b) = lacks c a && lacks c b.
Proof. apply all_chars_app. Qed.

Lemma slice_prefix (a b : string) :
  slice (a ++ b) 0 (Z.of_nat (String.length a)) = a.
Proof.
  unfold slice. rewrite Z.sub_0_r, Nat2Z.id. simpl (Z.to_nat 0).
  apply substring_prefix.
Qed.

Lemma slice_middle (a b c : string) :
  slice (a ++ b ++ c) (Z.of_nat (String.length a))
    (Z.of_nat (String.length a) + Z.of_nat (String.length b)) = b.
Proof.
  unfold slice. rewrite Nat2Z.id.
  replace (Z.to_nat _) with (String.length b) by lia.
  rewrite <- (Nat.add_0_r (String.length a)), substring_skip.
  apply substring_prefix.
Qed.

Lemma slice_suffix (a b : string) :
  slice (a ++ b) (Z.of_nat (String.length a))
    (Z.of_nat (String.length (a ++ b))) = b.
Proof.
  unfold slice. rewrite Nat2Z.id, slength_app.
  replace (Z.to_nat _) with (String.length b) by lia.
  rewrite <- (Nat.add_0_r (String.length a)), substring_skip.
  apply substring_all.
Qed.

(** Where the separator search lands in front of a name without one. *)
Lemma rfind_sep_dir (dir rest : string) :
  dir_prefix dir -> lacks "/" rest = true ->
  rfind "/" (dir ++ rest) + 1 = Z.of_nat (String.length dir).
Proof.
  intros [->|[d ->]] Hr; unfold rfind.
  - simpl append. now rewrite rfind_from_lacks.
  - rewrite sappend_assoc. cbn [append].
    rewrite rfind_from_last by (lia || exact Hr).
    rewrite slength_app. simpl. lia.
Qed.

(** [splitext] on a path whose last component is [name.ext]: the split is
    at that dot, unless [name] is empty or made of dots, in which case the
    path has no extension at all. *)
Lemma splitext_last_dot_core (dir name ext : string) :
  dir_prefix dir ->
  lacks "/" name = true ->
  lacks "." ext = true -> lacks "/" ext = true ->
  splitext (dir ++ name ++ "." ++ ext)
  = if all_dots name
    then (dir ++ name ++ "." ++ ext, "")
    else (dir ++ name, "." ++ ext).
Proof.
  intros Hd Hn He1 He2. unfold splitext.
  assert (Hsep : rfind "/" (dir ++ name ++ "." ++ ext) + 1
                 = Z.of_nat (String.length dir)).
  { apply rfind_sep_dir; [exact Hd|].
    rewrite lacks_app, Hn. cbn [append]. unfold lacks in *. cbn [all_chars].
    rewrite He2. reflexivity. }
  assert (Hdot : rfind "." (dir ++ name ++ "." ++ ext)
                 = Z.of_nat (String.length dir)
                   + Z.of_nat (String.length name)).
  { rewrite <- sappend_assoc. cbn [append]. unfold rfind.
    rewrite rfind_from_last by (lia || exact He1).
    rewrite slength_app. lia. }
  rewrite Hsep, Hdot, slice_middle.
  replace (rfind "/" (dir ++ name ++ "." ++ ext)
           <? Z.of_nat (String.length dir) + Z.of_nat (String.length name))
    with true by (symmetry; apply Z.ltb_lt; lia).
  cbn [andb]. destruct (all_dots name); cbn [negb]; [reflexivity|].
  rewrite <- Nat2Z.inj_add, <- slength_app, <- sappend_assoc.
  now rewrite slice_prefix, slice_suffix.
Qed.

(** [splitext] loses nothing: root and extension put together are the
    path. *)
Lemma splitext_roundtrip (p : string) :
  fst (splitext p) ++ snd (splitext p) = p.
Proof.
  unfold splitext.
  destruct ((rfind "/" p <? rfind "." p)
            && negb (all_dots (slice p (rfind "/" p + 1) (rfind "." p))))
    eqn:Hc; cbn [fst snd]; [|apply sappend_nil_r].
  apply andb_true_iff in Hc. destruct Hc as [Hlt _]. apply Z.ltb_lt in Hlt.
  unfold rfind in *.
  pose proof (rfind_from_bound "/" p 0 ltac:(lia)) as Hs.
  pose proof (rfind_from_bound "." p 0 ltac:(lia)) as Hd.
  unfold slice. rewrite Z.sub_0_r. simpl (Z.to_nat 0).
  replace (Z.to_nat (Z.of_nat (String.length p) - rfind_from "." p 0))
    with (String.length p - Z.to_nat (rfind_from "." p 0))%nat by lia.
  apply substring_split. lia.
Qed.

End PathExtras.

(** ** The entry point *)

Section MainExtras.

Import PyStr PyFloat Progress Spec Real Round Shapes Script Main.

Lemma endswith_app (x y : string) : endswith (x ++ y) y = true.
Proof.
  induction x as [|c r IH].
  - simpl. destruct y; simpl; rewrite ?String.eqb_refl, ?Ascii.eqb_refl;
      reflexivity.
  - cbn [append endswith]. rewrite IH. apply orb_true_r.
Qed.

Lemma endswith_inv (s a : string) :
  endswith s a = true -> exists p, s = p ++ a.
Proof.
  induction s as [|c r IH]; cbn [endswith]; intros H;
    apply orb_true_iff in H; destruct H as [H|H].
  - apply String.eqb_eq in H. exists "". now subst.
  - discriminate H.
  - apply String.eqb_eq in H. exists "". now subst.
  - destruct (IH H) as [p ->]. now exists (String c p).
Qed.

Lemma lower_app (x y : string) : lower (x ++ y) = lower x ++ lower y.
Proof. induction x as [|c r IH]; simpl; [reflexivity|now rewrite IH]. Qed.

Lemma lower_split (q t s : string) :
  lower s = q ++ t -> exists p x, s = p ++ x /\ lower p = q /\ lower x = t.
Proof.
  revert s. induction q as [|c q IH]; intros s H.
  - exists "", s. now repeat split.
  - destruct s as [|a s]; [discriminate H|]. cbn [lower append] in H.
    inversion H as [[Ha Hs]]. destruct (IH s Hs) as (p & x & -> & Hp & Hx).
    exists (String a p), x. repeat split; [|exact Hx].
    cbn [lower]. now rewrite Hp.
Qed.

Lemma app_same_length_inj (p q a b : string) :
  p ++ a = q ++ b -> String.length a = String.length b -> a = b.
Proof.
  revert q. induction p as [|c p IH]; intros [|d q] H Hl; cbn [append] in H.
  - exact H.
  - subst a. cbn [String.length] in Hl. rewrite slength_app in Hl. lia.
  - subst b. cbn [String.length] in Hl. rewrite slength_app in Hl. lia.
  - inversion H. eauto.
Qed.

Lemma caseless_length (x t : string) :
  caseless_eqb x t = true -> String.length x = String.length t.
Proof.
  revert t. induction x as [|a x IH]; intros [|b t] H; try discriminate H.
  - reflexivity.
  - cbn [caseless_eqb] in H. apply andb_true_iff in H. destruct H as [_ H].
    cbn [String.length]. now rewrite (IH t H).
Qed.

Lemma endswith_lower_caseless (s t : string) :
  all_plain t = true ->
  endswith (lower s) t = true
  <-> exists base x, s = base ++ x /\ caseless_eqb x t = true.
Proof.
  intros Ht. split.
  - intros H. apply endswith_inv in H. destruct H as [q H].
    apply lower_split in H. destruct H as (p & x & -> & _ & Hx).
    exists p, x. split; [reflexivity|].
    rewrite <- (lower_caseless t) by exact Ht.
    now apply String.eqb_eq.
  - intros (base & x & -> & Hx).
    rewrite <- (lower_caseless t) in Hx by exact Ht.
    apply String.eqb_eq in Hx. rewrite lower_app, Hx. apply endswith_app.
Qed.

(** X13. The script goes on to the conversion exactly for the paths that end in
    [.mkv] written in any case; for every other path it stops with a
    message before anything is run. *)
Theorem X13_main_accepts_mkv_suffix (w : World) (source_file : string) :
  (main w source_file = Remuxed (remux_with_progress w source_file)
   <-> exists base x,
         source_file = base ++ x /\ caseless_eqb x ".mkv" = true)
  /\ ((forall base x,
         source_file = base ++ x -> caseless_eqb x ".mkv" = false)
      -> exists msg, main w source_file = ExitMessage msg).
Proof.
  pose proof (endswith_lower_caseless source_file ".mkv" eq_refl) as Hiff.
  unfold main.
  destruct (endswith (lower source_file) ".mkv") eqn:E; cbn [negb].
  - destruct (proj1 Hiff eq_refl) as (base & x & Hs & Hx).
    assert (Hne : source_file <> "").
    { intros ->. apply caseless_length in Hx.
      destruct base; [|discriminate Hs]. simpl in Hs. subst x.
      discriminate Hx. }
    destruct source_file as [|c r]; [now contradiction Hne|].
    split; [split; [intros _; now exists base, x|reflexivity]|].
    intros H. rewrite (H base x Hs) in Hx. discriminate Hx.
  - split; [split|].
    + destruct source_file; discriminate.
    + intros H. apply Hiff in H. discriminate H.
    + intros _. destruct source_file; eauto.
Qed.

Lemma build_cmd_ends (src dst acodec vcodec : string) :
  nth 3 (build_ffmpeg_cmd src dst acodec vcodec) "" = src
  /\ last (build_ffmpeg_cmd src dst acodec vcodec) "" = dst.
Proof.
  unfold build_ffmpeg_cmd, audio_args, tag_args.
  destruct (String.eqb (lower acodec) "dts");
    destruct (String.eqb (lower vcodec) "hevc"
              || String.eqb (lower vcodec) "h265");
    split; reflexivity.
Qed.

(** X14. A conversion started from the entry point never writes over its
    input: the file [ffmpeg] reads is the chosen one, the file it writes
    is named after it with [.mp4] at the end, and the two differ. *)
Theorem X14_main_never_overwrites_source (w : World) (source_file : string)
    (run : io unit) (cmd : list string) :
  main w source_file = Remuxed run ->
  In (EvPopen cmd) (fst run) ->
  nth 3 cmd "" = source_file
  /\ last cmd "" = fst (splitext source_file) ++ ".mp4"
  /\ last cmd "" <> source_file.
Proof.
  intros Hm Hin. unfold main in Hm.
  destruct source_file as [|c r]; [discriminate Hm|].
  destruct (endswith (lower (String c r)) ".mkv") eqn:E; cbn [negb] in Hm;
    [|discriminate Hm].
  inversion Hm as [Hrun]. rewrite <- Hrun in Hin. clear Hm Hrun.
  destruct (trace_popen w (String c r)) as [_ Hp].
  destruct (Hp cmd Hin) as (dout & D & aout & vout & _ & _ & _ & _ & -> & _).
  destruct (build_cmd_ends (String c r)
              (fst (splitext (String c r)) ++ ".mp4")
              (str_strip aout) (str_strip vout)) as [H3 Hl].
  rewrite H3, Hl. repeat split.
  intros Heq. apply endswith_inv in E. destruct E as [q E].
  apply lower_split in E. destruct E as (p & x & E & _ & Hx).
  rewrite E in Heq at 2.
  apply app_same_length_inj in Heq.
  - subst x. discriminate Hx.
  - apply (f_equal String.length) in Hx.
    assert (Hlen : forall s, String.length (lower s) = String.length s)
      by (intros s; induction s as [|? ? IHs]; simpl; congruence).
    rewrite Hlen in Hx. rewrite Hx. reflexivity.
Qed.

Lemma X14_main_never_overwrites_source_witness :
  nth 3 (build_ffmpeg_cmd "a.MKV" "a.mp4" "aac" "aac") "" = "a.MKV"
  /\ last (build_ffmpeg_cmd "a.MKV" "a.mp4" "aac" "aac") ""
     = fst (splitext "a.MKV") ++ ".mp4"
  /\ last (build_ffmpeg_cmd "a.MKV" "a.mp4" "aac" "aac") "" <> "a.MKV".
Proof.
  apply (X14_main_never_overwrites_source
           (world_of "10.0" "aac" ["out_time_ms=5000000"] 0) "a.MKV"
           (remux_with_progress
              (world_of "10.0" "aac" ["out_time_ms=5000000"] 0) "a.MKV")
           (build_ffmpeg_cmd "a.MKV" "a.mp4" "aac" "aac")).
  - reflexivity.
  - vm_compute. auto 10.
Defined.

Lemma caseless_lacks (c : ascii) (x t : string) :
  (forall a b, Ascii.eqb (ascii_fold a) (ascii_fold b) = true ->
               Ascii.eqb a c = true -> Ascii.eqb b c = true) ->
  caseless_eqb x t = true -> lacks c t = true -> lacks c x = true.
Proof.
  intros Hc. unfold lacks.
  revert t. induction x as [|a x IH]; intros [|b t] H Ht; try discriminate H;
    [reflexivity|].
  cbn [caseless_eqb] in H. apply andb_true_iff in H. destruct H as [Hab H].
  cbn [all_chars] in *. apply andb_true_iff in Ht. destruct Ht as [Hb Ht].
  rewrite (IH t H Ht), andb_true_r.
  destruct (Ascii.eqb a c) eqn:Ea; [|reflexivity].
  rewrite (Hc a b Hab Ea) in Hb. discriminate Hb.
Qed.

Lemma fold_keeps_dot (a b : ascii) :
  Ascii.eqb (ascii_fold a) (ascii_fold b) = true ->
  Ascii.eqb a "." = true -> Ascii.eqb b "." = true.
Proof.
  assert (H : forall_ascii (fun b =>
            implb (Ascii.eqb (ascii_fold ".") (ascii_fold b))
                  (Ascii.eqb b ".")) = true)
    by (vm_compute; reflexivity).
  intros Hab Ha. apply Ascii.eqb_eq in Ha. subst a.
  pose proof (forall_ascii_spec _ H b) as Hb. cbv beta in Hb.
  rewrite Hab in Hb. exact Hb.
Qed.

Lemma fold_keeps_slash (a b : ascii) :
  Ascii.eqb (ascii_fold a) (ascii_fold b) = true ->
  Ascii.eqb a "/" = true -> Ascii.eqb b "/" = true.
Proof.
  assert (H : forall_ascii (fun b =>
            implb (Ascii.eqb (ascii_fold "/") (ascii_fold b))
                  (Ascii.eqb b "/")) = true)
    by (vm_compute; reflexivity).
  intros Hab Ha. apply Ascii.eqb_eq in Ha. subst a.
  pose proof (forall_ascii_spec _ H b) as Hb. cbv beta in Hb.
  rewrite Hab in Hb. exact Hb.
Qed.

(** X15. For a source [dir/name.mkv], with the extension in any case, [ffmpeg]
    writes to [dir/name.mp4]; when [name] is empty or made of dots the path
    counts as having no extension and [.mp4] is added to all of it. *)
Theorem X15_output_path_of_mkv (w : World) (dir name ext : string)
    (cmd : list string) :
  dir_prefix dir ->
  lacks "/" name = true ->
  caseless_eqb ext "mkv" = true ->
  In (EvPopen cmd)
     (fst (remux_with_progress w (dir ++ name ++ "." ++ ext))) ->
  last cmd ""
  = if all_dots name
    then dir ++ name ++ "." ++ ext ++ ".mp4"
    else dir ++ name ++ ".mp4".
Proof.
  intros Hd Hn He Hin.
  destruct (trace_popen w (dir ++ name ++ "." ++ ext)) as [_ Hp].
  destruct (Hp cmd Hin) as (dout & D & aout & vout & _ & _ & _ & _ & -> & _).
  rewrite (proj2 (build_cmd_ends _ _ _ _)).
  rewrite splitext_last_dot_core; try assumption.
  - destruct (all_dots name); cbn [fst].
    + now rewrite !sappend_assoc.
    + now rewrite sappend_assoc.
  - exact (caseless_lacks "." ext "mkv" fold_keeps_dot He eq_refl).
  - exact (caseless_lacks "/" ext "mkv" fold_keeps_slash He eq_refl).
Qed.

Lemma X15_output_path_of_mkv_witness :
  last (build_ffmpeg_cmd "/v/a.b.MKV" "/v/a.b.mp4" "aac" "aac") ""
  = if all_dots "a.b"
    then "/v/" ++ "a.b" ++ "." ++ "MKV" ++ ".mp4"
    else "/v/" ++ "a.b" ++ ".mp4".
Proof.
  apply (X15_output_path_of_mkv
           (world_of "10.0" "aac" ["out_time_ms=5000000"] 0)
           "/v/" "a.b" "MKV"
           (build_ffmpeg_cmd "/v/a.b.MKV" "/v/a.b.mp4" "aac" "aac")).
  - right. exists "/v". reflexivity.
  - reflexivity.
  - reflexivity.
  - vm_compute. auto 10.
Defined.

End MainExtras.

(** ** From the probes to the plan *)

Section ProbeExtras.

Import PyStr PyFloat Progress Spec Real Round Shapes Script Main.

Lemma popen_of_probes (w : World) (src aout vout : string)
    (cmd : list string) :
  check_output w (field_cmd src "a:0" "codec_name") = inr aout ->
  check_output w (field_cmd src "v:0" "codec_name") = inr vout ->
  In (EvPopen cmd) (fst (remux_with_progress w src)) ->
  cmd = build_ffmpeg_cmd src (fst (splitext src) ++ ".mp4")
          (str_strip aout) (str_strip vout)
  /\ In (EvCodecs (or_unknown (str_strip aout)) (or_unknown (str_strip vout)))
        (fst (remux_with_progress w src)).
Proof.
  intros Ha Hv Hin.
  destruct (trace_popen w src) as [_ Hp].
  destruct (Hp cmd Hin) as (dout & D & aout' & vout' & _ & _ & Ha' & Hv' & H).
  rewrite Ha in Ha'. rewrite Hv in Hv'.
  inversion Ha'. inversion Hv'. subst. exact H.
Qed.

(** X16. From what [ffprobe] prints to what [ffmpeg] is asked: the codec names
    are read without the white space around them and compared without
    regard to case; the audio is re-encoded to ALAC for "dts" and copied
    otherwise, the [hvc1] tag is added for "hevc" and "h265", and the names
    are shown with "unknown" for an empty one. *)
Theorem X16_probed_codecs_decide (w : World) (src : string)
    (a1 ac a2 v1 vc v2 : string) (cmd : list string) :
  check_output w (field_cmd src "a:0" "codec_name") = inr (a1 ++ ac ++ a2) ->
  check_output w (field_cmd src "v:0" "codec_name") = inr (v1 ++ vc ++ v2) ->
  all_chars is_space a1 = true -> all_chars is_space a2 = true ->
  stops is_space ac -> stops is_space (rev ac) ->
  all_chars is_space v1 = true -> all_chars is_space v2 = true ->
  stops is_space vc -> stops is_space (rev vc) ->
  In (EvPopen cmd) (fst (remux_with_progress w src)) ->
  cmd = (["ffmpeg"; "-y"; "-i"; src; "-c:v"; "copy";
          "-c:a"; (if caseless_eqb ac "dts" then "alac" else "copy");
          "-movflags"; "+faststart"]
         ++ (if caseless_eqb vc "hevc" || caseless_eqb vc "h265"
             then ["-tag:v"; "hvc1"] else [])
         ++ ["-progress"; "pipe:1"; "-nostats";
             (fst (splitext src) ++ ".mp4")%string])%list
  /\ In (EvCodecs (or_unknown ac) (or_unknown vc))
        (fst (remux_with_progress w src)).
Proof.
  intros Ha Hv Ha1 Ha2 Hac Hac' Hv1 Hv2 Hvc Hvc' Hin.
  destruct (popen_of_probes w src _ _ cmd Ha Hv Hin) as [-> Hc].
  rewrite (str_strip_core a1 ac a2) in * by assumption.
  rewrite (str_strip_core v1 vc v2) in * by assumption.
  split; [|exact Hc].
  unfold build_ffmpeg_cmd, audio_args, tag_args.
  rewrite (lower_caseless "dts"), (lower_caseless "hevc"),
    (lower_caseless "h265") by reflexivity.
  now destruct (caseless_eqb ac "dts").
Qed.

Lemma X16_probed_codecs_decide_witness :
  build_ffmpeg_cmd "film.mkv" "film.mp4" "DTS" "HEVC"
  = (["ffmpeg"; "-y"; "-i"; "film.mkv"; "-c:v"; "copy";
      "-c:a"; (if caseless_eqb "DTS" "dts" then "alac" else "copy");
      "-movflags"; "+faststart"]
     ++ (if caseless_eqb "HEVC" "hevc" || caseless_eqb "HEVC" "h265"
         then ["-tag:v"; "hvc1"] else [])
     ++ ["-progress"; "pipe:1"; "-nostats";
         (fst (splitext "film.mkv") ++ ".mp4")%string])%list
  /\ In (EvCodecs (or_unknown "DTS") (or_unknown "HEVC"))
        (fst (remux_with_progress
                {| check_output := fun cmd =>
                     match cmd with
                     | [_; _; _; _; "format=duration"; _; _; _] => inr "10.0"
                     | [_; _; _; _; "a:0"; _; _; _; _; _] =>
                         inr ("" ++ "DTS" ++ String "010" "")
                     | _ => inr (" " ++ "HEVC" ++ String "010" "")
                     end;
                   popen := fun _ => inr (["out_time_ms=5000000"], 0) |}
                "film.mkv")).
Proof.
  apply (X16_probed_codecs_decide
           {| check_output := fun cmd =>
                match cmd with
                | [_; _; _; _; "format=duration"; _; _; _] => inr "10.0"
                | [_; _; _; _; "a:0"; _; _; _; _; _] =>
                    inr ("" ++ "DTS" ++ String "010" "")
                | _ => inr (" " ++ "HEVC" ++ String "010" "")
                end;
              popen := fun _ => inr (["out_time_ms=5000000"], 0) |}
           "film.mkv" "" "DTS" (String "010" "") " " "HEVC" (String "010" "")
           (build_ffmpeg_cmd "film.mkv" "film.mp4" "DTS" "HEVC"));
    [reflexivity..|].
  vm_compute. auto 10.
Defined.

(** X17. A file without an audio or a video stream makes [ffprobe] print
    nothing but white space: both names are then shown as "unknown", the
    audio option is [copy] and no tag is added. *)
Theorem X17_absent_streams_default (w : World) (src aout vout : string)
    (cmd : list string) :
  check_output w (field_cmd src "a:0" "codec_name") = inr aout ->
  check_output w (field_cmd src "v:0" "codec_name") = inr vout ->
  all_chars is_space aout = true -> all_chars is_space vout = true ->
  In (EvPopen cmd) (fst (remux_with_progress w src)) ->
  cmd = ["ffmpeg"; "-y"; "-i"; src; "-c:v"; "copy"; "-c:a"; "copy";
         "-movflags"; "+faststart";
         "-progress"; "pipe:1"; "-nostats"; fst (splitext src) ++ ".mp4"]
  /\ In (EvCodecs "unknown" "unknown") (fst (remux_with_progress w src)).
Proof.
  intros Ha Hv Hsa Hsv Hin.
  destruct (popen_of_probes w src _ _ cmd Ha Hv Hin) as [-> Hc].
  assert (Hs : forall s, all_chars is_space s = true -> str_strip s = "").
  { intros s H. rewrite <- (sappend_nil_r s).
    exact (str_strip_core s "" "" H eq_refl I I). }
  rewrite (Hs aout Hsa), (Hs vout Hsv) in *. split; [reflexivity|exact Hc].
Qed.

Lemma X17_absent_streams_default_witness :
  build_ffmpeg_cmd "film.mkv" "film.mp4" "" ""
  = ["ffmpeg"; "-y"; "-i"; "film.mkv"; "-c:v"; "copy"; "-c:a"; "copy";
     "-movflags"; "+faststart";
     "-progress"; "pipe:1"; "-nostats"; fst (splitext "film.mkv") ++ ".mp4"]
  /\ In (EvCodecs "unknown" "unknown")
        (fst (remux_with_progress
                (world_of "10.0" (String "010" "") ["out_time_ms=5000000"] 0)
                "film.mkv")).
Proof.
  apply (X17_absent_streams_default
           (world_of "10.0" (String "010" "") ["out_time_ms=5000000"] 0)
           "film.mkv" (String "010" "") (String "010" "")
           (build_ffmpeg_cmd "film.mkv" "film.mp4" "" ""));
    [reflexivity..|].
  vm_compute. auto 10.
Defined.

End ProbeExtras.
